(** * harestorage: a storage interface over a local file system and a
      cloud bucket

    This development embeds the two implementations of the [Storage]
    interface, [LocalStorage] and [GCSStorage], as state-passing functions
    over a model of their two collaborators: the operating system's file
    calls and the object-store client.

    Conventions of the model.
    - Paths are Unix paths ([filepath.Separator] is the slash, so
      [filepath.Join] and [path.Join] coincide and [filepath.ToSlash] is
      the identity).
    - The file system is a finite map from cleaned paths to nodes.  The
      root and the working directory are directory entries like any other,
      created on demand by [os_MkdirAll].
    - The object store is a finite map from (bucket, object name) to
      objects; listing is by string prefix, in lexical order.
    - Every call that leaves the process is recorded in a log and may be
      made to fail by the environment: the world carries a table of the
      calls that fail and, for data transfers, of how many bytes pass
      before the failure.
    - The cancellation context taken by every method is not modelled. *)

From Stdlib Require Import ZArith String Ascii List Bool.
From stdpp Require Import base option list gmap strings sorting.

Open Scope string_scope.
Open Scope list_scope.

(** ** Paths: [path.Clean], [path.Join], [filepath.Dir] *)

Module Path.

Definition slash : ascii := "/"%char.

(** [strings.Split(s, "/")]. *)
Fixpoint split (s : string) : list string :=
  match s with
  | EmptyString => [EmptyString]
  | String c r =>
      if Ascii.eqb c slash then EmptyString :: split r
      else match split r with
           | x :: xs => String c x :: xs
           | [] => [String c EmptyString]
           end
  end.

(** [strings.Join(l, "/")]. *)
Fixpoint join (l : list string) : string :=
  match l with
  | [] => ""
  | [x] => x
  | x :: rest => x +:+ "/" +:+ join rest
  end.

Definition rooted (p : string) : bool :=
  match p with
  | String c _ => Ascii.eqb c slash
  | EmptyString => false
  end.

(** The element loop of [Clean]: [out] is the output buffer, as a stack of
    elements.  Empty and dot elements are dropped; a dot-dot element pops
    the last element when there is one to pop, is dropped at the top of a
    rooted path and is kept otherwise. *)
Fixpoint clean_elems (is_rooted : bool) (out : list string) (elems : list string)
  : list string :=
  match elems with
  | [] => rev out
  | e :: rest =>
      if String.eqb e "" || String.eqb e "." then clean_elems is_rooted out rest
      else if String.eqb e ".." then
        match out with
        | top :: out' =>
            if String.eqb top ".." then clean_elems is_rooted (e :: out) rest
            else clean_elems is_rooted out' rest
        | [] =>
            if is_rooted then clean_elems is_rooted [] rest
            else clean_elems is_rooted [e] rest
        end
      else clean_elems is_rooted (e :: out) rest
  end.

Definition Clean (p : string) : string :=
  let body := join (clean_elems (rooted p) [] (split p)) in
  if rooted p then "/" +:+ body
  else if String.eqb body "" then "." else body.

(** [Join]: the elements from the first non-empty one on, joined by
    slashes and cleaned; the empty string when every element is empty. *)
Fixpoint Join (elem : list string) : string :=
  match elem with
  | [] => ""
  | e :: rest => if String.eqb e "" then Join rest else Clean (join elem)
  end.

Fixpoint has_slash (s : string) : bool :=
  match s with
  | EmptyString => false
  | String c r => Ascii.eqb c slash || has_slash r
  end.

(** The part of [p] up to and including its last slash. *)
Fixpoint upto_last_slash (p : string) : string :=
  match p with
  | EmptyString => ""
  | String c r =>
      if has_slash r then String c (upto_last_slash r)
      else if Ascii.eqb c slash then "/" else ""
  end.

Definition Dir (p : string) : string := Clean (upto_last_slash p).

(** [filepath.ToSlash]: the separator is already the slash. *)
Definition ToSlash (p : string) : string := p.

(** The name of an entry inside its directory: the last element. *)
Definition elem_name (p : string) : string := List.last (split p) "".

(** [ancestors n p]: the directories above [p], nearest first, at most
    [n] of them. *)
Fixpoint ancestors (n : nat) (p : string) : list string :=
  match n with
  | O => []
  | S n' => if String.eqb (Dir p) p then [] else Dir p :: ancestors n' (Dir p)
  end.

Definition parents (p : string) : list string := ancestors (String.length p) p.

(** [under d p]: [p] is [d] or lies below it. *)
Definition under (d p : string) : bool :=
  String.eqb p d || existsb (String.eqb d) (parents p).

End Path.

(** ** Errors *)

(** [Errorf fmt args] is [fmt.Errorf(fmt, args...)] and [Wrapf fmt args e]
    is the same call with [e] for its [%w] verb: the format string as
    written in the source and the arguments of its [%q] and [%s] verbs.
    The other constructors are the errors of the collaborators. *)
Inductive error : Type :=
| Errorf (format : string) (args : list string)
| Wrapf (format : string) (args : list string) (wrapped : error)
| ErrNotExist        (* fs.ErrNotExist, ENOENT *)
| ErrNotDir          (* ENOTDIR *)
| ErrIsDir           (* EISDIR *)
| ErrNotEmpty        (* ENOTEMPTY *)
| ErrInvalid         (* EINVAL, EBUSY *)
| ErrIO              (* a failure injected by the environment *)
| ErrObjectNotExist  (* storage.ErrObjectNotExist *)
| IteratorDone.      (* iterator.Done *)

Inductive result (A : Type) : Type :=
| Ok (a : A)
| Err (e : error).
Arguments Ok {A} a.
Arguments Err {A} e.

(** [os.IsNotExist]. *)
Definition IsNotExist (e : error) : bool :=
  match e with ErrNotExist => true | _ => false end.

Definition is_Done (e : error) : bool :=
  match e with IteratorDone => true | _ => false end.

(** The error classes of the interface contract. *)
Definition InvalidArgument (e : error) : Prop :=
  e = Errorf "name required" [] \/ e = Errorf "prefix required" [] \/
  e = Errorf "src required" [] \/ e = Errorf "dst required" [].

Definition Unconfigured (e : error) : Prop :=
  exists fmt what,
    e = Wrapf fmt [] (Errorf what []) /\
    (what = "root dir required" \/ what = "storage client required" \/
     what = "bucketName required").

(** ** The world: file system, bucket store, clock, call log, failures *)

Inductive node : Type :=
| File (data : list Byte.byte) (mtime : nat)
| Directory (perm : N).

Record gobject : Type := mkObject {
  o_data : list Byte.byte;
  o_ctype : string;
  o_meta : gmap string string;
  o_updated : nat;
}.

(** The calls that leave the process. *)
Inductive call : Type :=
| SysMkdirAll (p : string) (perm : N)
| SysCreate (p : string)
| SysOpen (p : string)
| SysRead (p : string)
| SysWrite (p : string)
| SysClose (p : string)
| SysReadDir (p : string)
| SysLstat (p : string)
| SysRename (src dst : string)
| SysRemove (p : string)
| SysRemoveAll (p : string)
| GcsNewReader (bucket name : string)
| GcsWrite (bucket name : string)
| GcsClose (bucket name : string)
| GcsNext (bucket prefix : string)
| GcsCopy (bucket src dst : string)
| GcsDelete (bucket name : string).

#[global] Instance call_eq_dec : EqDecision call.
Proof. solve_decision. Defined.

Record world : Type := mkWorld {
  fs : gmap string node;
  gcs : gmap (string * string) gobject;
  clock : nat;
  log : list call;
  faults : list (call * nat);
}.

Definition set_fs (m : gmap string node) (w : world) : world :=
  mkWorld m (gcs w) (clock w) (log w) (faults w).
Definition set_gcs (m : gmap (string * string) gobject) (w : world) : world :=
  mkWorld (fs w) m (clock w) (log w) (faults w).
Definition set_faults (f : list (call * nat)) (w : world) : world :=
  mkWorld (fs w) (gcs w) (clock w) (log w) f.

Fixpoint fault_of (c : call) (l : list (call * nat)) : option nat :=
  match l with
  | [] => None
  | (c', k) :: rest => if decide (c = c') then Some k else fault_of c rest
  end.

(** ** The state monad of the methods *)

Definition io (A : Type) : Type := world -> A * world.

Definition ret {A} (a : A) : io A := fun w => (a, w).
Definition bind {A B} (m : io A) (k : A -> io B) : io B :=
  fun w => let (a, w') := m w in k a w'.

Notation "x <- m ;; k" := (bind m (fun x => k))
  (at level 100, m at next level, right associativity).
Notation "m ;;; k" := (bind m (fun _ => k))
  (at level 100, right associativity).

Definition get_fs : io (gmap string node) := fun w => (fs w, w).
Definition put_fs (m : gmap string node) : io unit := fun w => (tt, set_fs m w).
Definition get_gcs : io (gmap (string * string) gobject) := fun w => (gcs w, w).
Definition put_gcs (m : gmap (string * string) gobject) : io unit :=
  fun w => (tt, set_gcs m w).
Definition get_clock : io nat := fun w => (clock w, w).

(** A call goes out: it is logged, the clock advances, and the
    environment says whether it fails. *)
Definition tick (c : call) (w : world) : world :=
  mkWorld (fs w) (gcs w) (S (clock w)) (log w ++ [c]) (faults w).

Definition call_out (c : call) : io (option nat) :=
  fun w => (fault_of c (faults w), tick c w).

Definition run {A} (m : io A) (w : world) : A := fst (m w).
Definition exec {A} (m : io A) (w : world) : world := snd (m w).

(** ** The operating system's file calls *)

Definition is_file (m : gmap string node) (p : string) : bool :=
  match m !! p with Some (File _ _) => true | _ => false end.

(** Path resolution: the node at [p], or why there is none.  A path below
    a regular file is not a directory path; any other absent path does
    not exist. *)
Definition os_stat (m : gmap string node) (p : string) : result node :=
  match m !! p with
  | Some n => Ok n
  | None => if existsb (is_file m) (Path.parents p) then Err ErrNotDir
            else Err ErrNotExist
  end.

(** The entries directly inside directory [d]. *)
Definition is_child (d : string) (p : string) : bool :=
  String.eqb (Path.Dir p) d && negb (String.eqb p d).

Definition has_children (m : gmap string node) (d : string) : bool :=
  existsb (fun kv => is_child d kv.1) (map_to_list m).

(** [os.MkdirAll] on the chain [p; parent of p; ...]: a directory is
    left alone, a file is an error, an absent path is made after its
    parent. *)
Fixpoint mkdir_all (perm : N) (chain : list string) (m : gmap string node)
  : option error * gmap string node :=
  match chain with
  | [] => (None, m)
  | p :: ups =>
      match m !! p with
      | Some (Directory _) => (None, m)
      | Some (File _ _) => (Some ErrNotDir, m)
      | None =>
          let (e, m') := mkdir_all perm ups m in
          match e with
          | Some _ => (e, m')
          | None => (None, <[p := Directory perm]> m')
          end
      end
  end.

Definition os_MkdirAll (p : string) (perm : N) : io (option error) :=
  f <- call_out (SysMkdirAll p perm) ;;
  match f with
  | Some _ => ret (Some ErrIO)
  | None =>
      m <- get_fs ;;
      let (e, m') := mkdir_all perm (p :: Path.parents p) m in
      put_fs m' ;;; ret e
  end.

(** [*os.File]: an open file, known by its path. *)
Record OsFile : Type := mkFile { f_path : string }.

(** [os.Create]: the file is created empty, or truncated when it exists;
    its directory must exist. *)
Definition os_Create (p : string) : io (result OsFile) :=
  f <- call_out (SysCreate p) ;;
  match f with
  | Some _ => ret (Err ErrIO)
  | None =>
      m <- get_fs ;;
      t <- get_clock ;;
      match m !! p with
      | Some (Directory _) => ret (Err ErrIsDir)
      | Some (File _ _) => put_fs (<[p := File [] t]> m) ;;; ret (Ok (mkFile p))
      | None =>
          match os_stat m (Path.Dir p) with
          | Ok (Directory _) => put_fs (<[p := File [] t]> m) ;;; ret (Ok (mkFile p))
          | Ok (File _ _) => ret (Err ErrNotDir)
          | Err e => ret (Err e)
          end
      end
  end.

(** [os.Open]: succeeds on files and on directories. *)
Definition os_Open (p : string) : io (result OsFile) :=
  f <- call_out (SysOpen p) ;;
  match f with
  | Some _ => ret (Err ErrIO)
  | None =>
      m <- get_fs ;;
      match os_stat m p with
      | Ok _ => ret (Ok (mkFile p))
      | Err e => ret (Err e)
      end
  end.

(** What a reader yields: its bytes, then end of file or an error. *)
Record Reader : Type := mkReader {
  r_data : list Byte.byte;
  r_err : option error;
}.

(** [bytes.NewReader(b)]. *)
Definition bytes_Reader (b : list Byte.byte) : Reader := mkReader b None.

(** Reading an open file to its end.  A failing read yields the bytes
    before the failure. *)
Definition os_Read (file : OsFile) : io Reader :=
  f <- call_out (SysRead (f_path file)) ;;
  m <- get_fs ;;
  match m !! f_path file with
  | Some (File data _) =>
      match f with
      | Some k => ret (mkReader (take k data) (Some ErrIO))
      | None => ret (mkReader data None)
      end
  | Some (Directory _) => ret (mkReader [] (Some ErrIsDir))
  | None => ret (mkReader [] (Some ErrNotExist))
  end.

(** [io.Writer]: a write returns the writer as it is afterwards, the
    number of bytes written and the error. *)
Class io_Writer (W : Type) : Type :=
  Write : W -> list Byte.byte -> io (W * (nat * option error)).

(** Writing at the end of an open file.  A failing write leaves the bytes
    before the failure in the file. *)
Definition os_Write (file : OsFile) (data : list Byte.byte)
  : io (OsFile * (nat * option error)) :=
  f <- call_out (SysWrite (f_path file)) ;;
  m <- get_fs ;;
  t <- get_clock ;;
  let n := match f with Some k => Nat.min k (length data) | None => length data end in
  let e := match f with Some _ => Some ErrIO | None => None end in
  match m !! f_path file with
  | Some (File old _) =>
      put_fs (<[f_path file := File (old ++ take n data) t]> m) ;;; ret (file, (n, e))
  | _ => ret (file, (0, Some ErrInvalid))
  end.

#[global] Instance OsFile_Writer : io_Writer OsFile := os_Write.

(** [f.Close()], whose error the source never looks at. *)
Definition os_Close (file : OsFile) : io unit :=
  _ <- call_out (SysClose (f_path file)) ;; ret tt.

(** [io.Copy(dst, src)]: the bytes of [src] go to [dst]; the count of
    bytes written and the first error of either side. *)
Definition io_Copy {W} `{io_Writer W} (dst : W) (src : Reader)
  : io (W * (Z * option error)) :=
  r <- Write dst (r_data src) ;;
  let '(dst', (n, werr)) := r in
  match werr with
  | Some e => ret (dst', (Z.of_nat n, Some e))
  | None => ret (dst', (Z.of_nat n, r_err src))
  end.

(** [os.ReadDir]: the entries of a directory, sorted by name. *)
Record DirEntry : Type := mkDirEntry {
  de_Name : string;
  de_IsDir : bool;
  de_path : string;
}.

Definition entry_le (a b : DirEntry) : Prop :=
  String.leb (de_Name a) (de_Name b) = true.

#[global] Instance entry_le_dec : RelDecision entry_le.
Proof. intros a b. unfold entry_le. apply _. Defined.

Definition entry_of (kv : string * node) : DirEntry :=
  mkDirEntry (Path.elem_name kv.1)
             (match kv.2 with Directory _ => true | File _ _ => false end)
             kv.1.

Definition dir_entries (m : gmap string node) (d : string) : list DirEntry :=
  merge_sort entry_le
    (entry_of <$> filter (fun kv => is_child d kv.1) (map_to_list m)).

Definition os_ReadDir (p : string) : io (result (list DirEntry)) :=
  f <- call_out (SysReadDir p) ;;
  match f with
  | Some _ => ret (Err ErrIO)
  | None =>
      m <- get_fs ;;
      match os_stat m p with
      | Ok (Directory _) => ret (Ok (dir_entries m p))
      | Ok (File _ _) => ret (Err ErrNotDir)
      | Err e => ret (Err e)
      end
  end.

(** [DirEntry.Info()]: an [lstat] of the entry. *)
Record FileInfo : Type := mkFileInfo {
  fi_Size : Z;
  fi_ModTime : nat;
}.

Definition de_Info (e : DirEntry) : io (result FileInfo) :=
  f <- call_out (SysLstat (de_path e)) ;;
  match f with
  | Some _ => ret (Err ErrIO)
  | None =>
      m <- get_fs ;;
      match os_stat m (de_path e) with
      | Ok (File data t) => ret (Ok (mkFileInfo (Z.of_nat (length data)) t))
      | Ok (Directory _) => ret (Ok (mkFileInfo 0 0))
      | Err err => ret (Err err)
      end
  end.

(** [os.Rename].  A file replaces a file; a directory moves with all
    that is below it, onto nothing or onto an empty directory. *)
Definition rekey (src dst k : string) : string :=
  dst +:+ String.substring (String.length src) (String.length k - String.length src) k.

Definition move_tree (src dst : string) (m : gmap string node) : gmap string node :=
  foldr (fun kv acc => <[rekey src dst kv.1 := kv.2]> acc)
        (filter (fun kv => Path.under src kv.1 = false) (delete dst m))
        (filter (fun kv => Path.under src kv.1) (map_to_list m)).

Definition rename_node (src dst : string) (n : node) (m : gmap string node)
  : result (gmap string node) :=
  match n, m !! dst with
  | File _ _, Some (Directory _) => Err ErrIsDir
  | File data t, _ => Ok (<[dst := File data t]> (delete src m))
  | Directory _, Some (File _ _) => Err ErrNotDir
  | Directory _, Some (Directory _) =>
      if has_children m dst then Err ErrNotEmpty else Ok (move_tree src dst m)
  | Directory _, None =>
      if Path.under src dst then Err ErrInvalid else Ok (move_tree src dst m)
  end.

Definition os_Rename (src dst : string) : io (option error) :=
  f <- call_out (SysRename src dst) ;;
  match f with
  | Some _ => ret (Some ErrIO)
  | None =>
      m <- get_fs ;;
      match os_stat m src with
      | Err e => ret (Some e)
      | Ok n =>
          if String.eqb src dst then ret None
          else if String.eqb (Path.Dir src) src then ret (Some ErrInvalid)
          else match os_stat m (Path.Dir dst) with
               | Err e => ret (Some e)
               | Ok (File _ _) => ret (Some ErrNotDir)
               | Ok (Directory _) =>
                   match rename_node src dst n m with
                   | Ok m' => put_fs m' ;;; ret None
                   | Err e => ret (Some e)
                   end
               end
      end
  end.

(** [os.Remove]: a file, or an empty directory. *)
Definition os_Remove (p : string) : io (option error) :=
  f <- call_out (SysRemove p) ;;
  match f with
  | Some _ => ret (Some ErrIO)
  | None =>
      m <- get_fs ;;
      match os_stat m p with
      | Err e => ret (Some e)
      | Ok (File _ _) => put_fs (delete p m) ;;; ret None
      | Ok (Directory _) =>
          if has_children m p then ret (Some ErrNotEmpty)
          else put_fs (delete p m) ;;; ret None
      end
  end.

(** [os.RemoveAll]: the path and all that is below it; no error when
    the path does not exist. *)
Definition os_RemoveAll (p : string) : io (option error) :=
  f <- call_out (SysRemoveAll p) ;;
  match f with
  | Some _ => ret (Some ErrIO)
  | None =>
      m <- get_fs ;;
      put_fs (filter (fun kv => Path.under p kv.1 = false) m) ;;; ret None
  end.

(** ** The object-store client *)

Record ObjectAttrs : Type := mkAttrs {
  attrs_Name : string;
  attrs_Size : Z;
  attrs_Updated : nat;
  attrs_Metadata : gmap string string;
}.

(** [storage.Writer]: nothing is stored before [Close]. *)
Record Writer : Type := mkWriter {
  w_bucket : string;
  w_name : string;
  w_ContentType : string;
  w_Metadata : gmap string string;
  w_buf : list Byte.byte;
  w_failed : bool;
}.

(** [ObjectHandle.NewWriter]: no call goes out yet. *)
Definition gcs_NewWriter (bucket name : string) : Writer :=
  mkWriter bucket name "" ∅ [] false.

Definition gcs_Write (wr : Writer) (data : list Byte.byte)
  : io (Writer * (nat * option error)) :=
  f <- call_out (GcsWrite (w_bucket wr) (w_name wr)) ;;
  match f with
  | Some k =>
      let n := Nat.min k (length data) in
      ret (mkWriter (w_bucket wr) (w_name wr) (w_ContentType wr) (w_Metadata wr)
                    (w_buf wr ++ take n data) true, (n, Some ErrIO))
  | None =>
      ret (mkWriter (w_bucket wr) (w_name wr) (w_ContentType wr) (w_Metadata wr)
                    (w_buf wr ++ data) (w_failed wr), (length data, None))
  end.

(** [Writer.Close]: the upload is finished and the object stored, or an
    error is returned and nothing is stored. *)
Definition gcs_Close (wr : Writer) : io (option error) :=
  f <- call_out (GcsClose (w_bucket wr) (w_name wr)) ;;
  match f with
  | Some _ => ret (Some ErrIO)
  | None =>
      if w_failed wr then ret (Some ErrIO)
      else
        m <- get_gcs ;;
        t <- get_clock ;;
        put_gcs (<[(w_bucket wr, w_name wr) :=
                   mkObject (w_buf wr) (w_ContentType wr) (w_Metadata wr) t]> m) ;;;
        ret None
  end.

#[global] Instance Writer_Writer : io_Writer Writer := gcs_Write.

(** [ObjectHandle.NewReader]: the bytes of the object as stored now. *)
Definition gcs_NewReader (bucket name : string) : io (result (list Byte.byte)) :=
  f <- call_out (GcsNewReader bucket name) ;;
  match f with
  | Some _ => ret (Err ErrIO)
  | None =>
      m <- get_gcs ;;
      match m !! (bucket, name) with
      | Some o => ret (Ok (o_data o))
      | None => ret (Err ErrObjectNotExist)
      end
  end.

(** [BucketHandle.Objects] with a prefix query: the objects of the
    bucket whose name starts with the prefix, by name.  The iterator is
    the list of what remains to be yielded. *)
Definition Iterator : Type := list ObjectAttrs.

Definition attrs_le (a b : ObjectAttrs) : Prop :=
  String.leb (attrs_Name a) (attrs_Name b) = true.

#[global] Instance attrs_le_dec : RelDecision attrs_le.
Proof. intros a b. unfold attrs_le. apply _. Defined.

Definition matches (bucket prefix : string) (kv : string * string * gobject) : bool :=
  String.eqb kv.1.1 bucket && String.prefix prefix kv.1.2.

Definition attrs_of (kv : string * string * gobject) : ObjectAttrs :=
  mkAttrs kv.1.2 (Z.of_nat (length (o_data kv.2))) (o_updated kv.2) (o_meta kv.2).

Definition gcs_Objects (bucket prefix : string) : io Iterator :=
  m <- get_gcs ;;
  ret (merge_sort attrs_le
         (attrs_of <$> filter (matches bucket prefix) (map_to_list m))).

(** [it.Next()]: the call fails, or yields the next object, or
    [iterator.Done] when none remains. *)
Definition it_Next (bucket prefix : string) (it : Iterator)
  : io (option ObjectAttrs * option error) :=
  f <- call_out (GcsNext bucket prefix) ;;
  match f with
  | Some _ => ret (None, Some ErrIO)
  | None =>
      match it with
      | [] => ret (None, Some IteratorDone)
      | a :: _ => ret (Some a, None)
      end
  end.

(** [ObjectHandle.Delete]. *)
Definition gcs_Delete (bucket name : string) : io (option error) :=
  f <- call_out (GcsDelete bucket name) ;;
  match f with
  | Some _ => ret (Some ErrIO)
  | None =>
      m <- get_gcs ;;
      match m !! (bucket, name) with
      | Some _ => put_gcs (delete (bucket, name) m) ;;; ret None
      | None => ret (Some ErrObjectNotExist)
      end
  end.

(** [dst.CopierFrom(src).Run]: a copy inside the store. *)
Definition gcs_Copy (bucket src dst : string) : io (option error) :=
  f <- call_out (GcsCopy bucket src dst) ;;
  match f with
  | Some _ => ret (Some ErrIO)
  | None =>
      m <- get_gcs ;;
      t <- get_clock ;;
      match m !! (bucket, src) with
      | Some o =>
          put_gcs (<[(bucket, dst) := mkObject (o_data o) (o_ctype o) (o_meta o) t]> m) ;;;
          ret None
      | None => ret (Some ErrObjectNotExist)
      end
  end.

(** ** The interface *)

Module PutOptions.
Record t : Type := mk {
  ContentType : string;
  Metadata : gmap string string;
}.
End PutOptions.

Module ObjectInfo.
Record t : Type := mk {
  Name : string;
  Size : Z;
  UpdatedAt : nat;
  Metadata : gmap string string;
}.
End ObjectInfo.

(** The [io.ReadCloser] a [Get] returns: an open file, or the reader of
    an object. *)
Inductive ReadCloser : Type :=
| FileReader (f : OsFile)
| ObjectReader (data : list Byte.byte).

(** [io.ReadAll] on what [Get] returned. *)
Definition io_ReadAll (rc : ReadCloser) : io (list Byte.byte * option error) :=
  match rc with
  | FileReader f => r <- os_Read f ;; ret (r_data r, r_err r)
  | ObjectReader data => ret (data, None)
  end.

Module Storage.
Class t (S : Type) : Type := {
  Name : S -> string;
  Get : S -> string -> io (option ReadCloser * option error);
  Put : S -> string -> Reader -> option PutOptions.t -> io (Z * option error);
  List : S -> string -> io (list ObjectInfo.t * option error);
  Copy : S -> string -> string -> io (option error);
  Move : S -> string -> string -> io (option error);
  Delete : S -> string -> io (option error);
  DeleteAll : S -> string -> io (option error);
  PathJoin : S -> list string -> string;
}.
End Storage.

(** ** The local backend *)

(** The mode [0755] of the directories the backend creates. *)
Definition perm_0755 : N := 493.

Module LocalStorage.

Record t : Type := mk {
  rootDir : string;
  name : string;
}.

Definition NewLocalStorage (rootDir name : string) : t := mk rootDir name.

Definition Name (s : t) : string := name s.

Definition PathJoin (s : t) (elem : list string) : string := Path.Join elem.

Definition checkRootDir (s : t) : option error :=
  if String.eqb (rootDir s) "" then Some (Errorf "root dir required" [])
  else None.

Definition Get (s : t) (name : string) : io (option ReadCloser * option error) :=
  match checkRootDir s with
  | Some err => ret (None, Some (Wrapf "invalid root path: %w" [] err))
  | None =>
      if String.eqb name "" then ret (None, Some (Errorf "name required" []))
      else
        let fullPath := PathJoin s [rootDir s; name] in
        f <- os_Open fullPath ;;
        match f with
        | Err err => ret (None, Some (Wrapf "failed to open file %q: %w" [fullPath] err))
        | Ok f => ret (Some (FileReader f), None)
        end
  end.

Definition Put (s : t) (name : string) (r : Reader) (opts : option PutOptions.t)
  : io (Z * option error) :=
  match checkRootDir s with
  | Some err => ret (0%Z, Some (Wrapf "invalid root path: %w" [] err))
  | None =>
      if String.eqb name "" then ret (0%Z, Some (Errorf "name required" []))
      else
        let fullPath := PathJoin s [rootDir s; name] in
        let dir := Path.Dir fullPath in
        err <- os_MkdirAll dir perm_0755 ;;
        match err with
        | Some err => ret (0%Z, Some (Wrapf "failed to create directory %q: %w" [dir] err))
        | None =>
            f <- os_Create fullPath ;;
            match f with
            | Err err => ret (0%Z, Some (Wrapf "failed to create file %q: %w" [fullPath] err))
            | Ok f =>
                c <- io_Copy f r ;;
                let '(f, (size, err)) := c in
                os_Close f ;;;                       (* defer f.Close() *)
                match err with
                | Some err => ret (0%Z, Some (Wrapf "failed to write file %q: %w" [fullPath] err))
                | None => ret (size, None)
                end
            end
        end
  end.

(** The loop of [List] over the directory entries. *)
Fixpoint List_loop (s : t) (prefix : string) (files : list DirEntry)
  (objects : list ObjectInfo.t) : io (list ObjectInfo.t) :=
  match files with
  | [] => ret objects
  | file :: files' =>
      if de_IsDir file then List_loop s prefix files' objects
      else
        info <- de_Info file ;;
        match info with
        | Err _ => List_loop s prefix files' objects
        | Ok info =>
            List_loop s prefix files'
              (objects ++ [ObjectInfo.mk (Path.ToSlash (PathJoin s [prefix; de_Name file]))
                                         (fi_Size info) (fi_ModTime info) ∅])
        end
  end.

Definition List (s : t) (prefix : string) : io (list ObjectInfo.t * option error) :=
  match checkRootDir s with
  | Some err => ret ([], Some (Wrapf "invalid root path: %w" [] err))
  | None =>
      if String.eqb prefix "" then ret ([], Some (Errorf "prefix required" []))
      else
        let fullPath := PathJoin s [rootDir s; prefix] in
        files <- os_ReadDir fullPath ;;
        match files with
        | Err err =>
            if IsNotExist err then ret ([], None)
            else ret ([], Some (Wrapf "failed to list files %q: %w" [fullPath] err))
        | Ok files =>
            objects <- List_loop s prefix files [] ;;
            ret (objects, None)
        end
  end.

Definition Copy (s : t) (src dst : string) : io (option error) :=
  match checkRootDir s with
  | Some err => ret (Some (Wrapf "invalid storage client: %w" [] err))
  | None =>
      if String.eqb src "" then ret (Some (Errorf "src required" []))
      else if String.eqb dst "" then ret (Some (Errorf "dst required" []))
      else
        let srcPath := Path.Join [rootDir s; src] in
        let dstPath := Path.Join [rootDir s; dst] in
        srcFile <- os_Open srcPath ;;
        match srcFile with
        | Err err => ret (Some (Wrapf "failed to open src file %q: %w" [srcPath] err))
        | Ok srcFile =>
            r <- (err <- os_MkdirAll (Path.Dir dstPath) perm_0755 ;;
                  match err with
                  | Some err =>
                      ret (Some (Wrapf "failed to create dst directory %q: %w"
                                       [Path.Dir dstPath] err))
                  | None =>
                      dstFile <- os_Create dstPath ;;
                      match dstFile with
                      | Err err =>
                          ret (Some (Wrapf "failed to create dst file %q: %w" [dstPath] err))
                      | Ok dstFile =>
                          data <- os_Read srcFile ;;
                          c <- io_Copy dstFile data ;;
                          let '(dstFile, (_, err)) := c in
                          os_Close dstFile ;;;        (* defer dstFile.Close() *)
                          match err with
                          | Some err =>
                              ret (Some (Wrapf "failed to copy file %q to %q: %w"
                                               [srcPath; dstPath] err))
                          | None => ret None
                          end
                      end
                  end) ;;
            os_Close srcFile ;;;                      (* defer srcFile.Close() *)
            ret r
        end
  end.

Definition Delete (s : t) (name : string) : io (option error) :=
  match checkRootDir s with
  | Some err => ret (Some (Wrapf "invalid root path: %w" [] err))
  | None =>
      if String.eqb name "" then ret (Some (Errorf "name required" []))
      else
        let fullPath := PathJoin s [rootDir s; name] in
        err <- os_Remove fullPath ;;
        match err with
        | Some err => ret (Some (Wrapf "failed to delete file %q: %w" [fullPath] err))
        | None => ret None
        end
  end.

Definition Move (s : t) (src dst : string) : io (option error) :=
  match checkRootDir s with
  | Some err => ret (Some (Wrapf "invalid storage client: %w" [] err))
  | None =>
      if String.eqb src "" then ret (Some (Errorf "src required" []))
      else if String.eqb dst "" then ret (Some (Errorf "dst required" []))
      else
        let srcPath := Path.Join [rootDir s; src] in
        let dstPath := Path.Join [rootDir s; dst] in
        err <- os_MkdirAll (Path.Dir dstPath) perm_0755 ;;
        match err with
        | Some err =>
            ret (Some (Wrapf "failed to create dst directory %q: %w" [Path.Dir dstPath] err))
        | None =>
            err <- os_Rename srcPath dstPath ;;
            match err with
            | None => ret None
            | Some _ =>
                err <- Copy s src dst ;;
                match err with
                | Some err =>
                    ret (Some (Wrapf "failed to copy file %q to %q: %w" [src; dst] err))
                | None =>
                    err <- Delete s src ;;
                    match err with
                    | Some err => ret (Some (Wrapf "failed to delete file %q: %w" [src] err))
                    | None => ret None
                    end
                end
            end
        end
  end.

Definition DeleteAll (s : t) (prefix : string) : io (option error) :=
  match checkRootDir s with
  | Some err => ret (Some (Wrapf "invalid root path: %w" [] err))
  | None =>
      if String.eqb prefix "" then ret (Some (Errorf "prefix required" []))
      else
        let fullPath := PathJoin s [rootDir s; prefix] in
        err <- os_RemoveAll fullPath ;;
        match err with
        | Some err => ret (Some (Wrapf "failed to delete path %q: %w" [fullPath] err))
        | None => ret None
        end
  end.

End LocalStorage.

#[global] Instance LocalStorage_Storage : Storage.t LocalStorage.t := {
  Storage.Name := LocalStorage.Name;
  Storage.Get := LocalStorage.Get;
  Storage.Put := LocalStorage.Put;
  Storage.List := LocalStorage.List;
  Storage.Copy := LocalStorage.Copy;
  Storage.Move := LocalStorage.Move;
  Storage.Delete := LocalStorage.Delete;
  Storage.DeleteAll := LocalStorage.DeleteAll;
  Storage.PathJoin := LocalStorage.PathJoin;
}.

(** ** The cloud backend *)

(** [*storage.Client]: the handle is given from outside, or is nil. *)
Inductive Client : Type := StorageClient.

Module GCSStorage.

Record t : Type := mk {
  client : option Client;
  bucketName : string;
  name : string;
}.

Definition NewGCSStorage (client : option Client) (bucketName name : string) : t :=
  mk client bucketName name.

Definition Name (s : t) : string := name s.

Definition PathJoin (s : t) (elem : list string) : string := Path.Join elem.

Definition checkClientAndBucket (s : t) : option error :=
  match client s with
  | None => Some (Errorf "storage client required" [])
  | Some _ =>
      if String.eqb (bucketName s) "" then Some (Errorf "bucketName required" [])
      else None
  end.

Definition Get (s : t) (name : string) : io (option ReadCloser * option error) :=
  match checkClientAndBucket s with
  | Some err => ret (None, Some (Wrapf "storage client: %w" [] err))
  | None =>
      if String.eqb name "" then ret (None, Some (Errorf "name required" []))
      else
        r <- gcs_NewReader (bucketName s) name ;;
        match r with
        | Err err =>
            let fullPath := PathJoin s [bucketName s; name] in
            ret (None, Some (Wrapf "failed to open file %q: %w" [fullPath] err))
        | Ok r => ret (Some (ObjectReader r), None)
        end
  end.

(** The settings [Put] copies from its options into the writer. *)
Definition apply_opts (opts : option PutOptions.t) (w : Writer) : Writer :=
  match opts with
  | None => w
  | Some o =>
      let w1 :=
        if negb (String.eqb (PutOptions.ContentType o) "")
        then mkWriter (w_bucket w) (w_name w) (PutOptions.ContentType o)
                      (w_Metadata w) (w_buf w) (w_failed w)
        else w in
      if (0 <? size (PutOptions.Metadata o))%nat
      then mkWriter (w_bucket w1) (w_name w1) (w_ContentType w1)
                    (PutOptions.Metadata o) (w_buf w1) (w_failed w1)
      else w1
  end.

Definition Put (s : t) (name : string) (r : Reader) (opts : option PutOptions.t)
  : io (Z * option error) :=
  match checkClientAndBucket s with
  | Some err => ret (0%Z, Some (Wrapf "invalid storage client: %w" [] err))
  | None =>
      if String.eqb name "" then ret (0%Z, Some (Errorf "name required" []))
      else
        let w := gcs_NewWriter (bucketName s) name in
        let w := apply_opts opts w in
        c <- io_Copy w r ;;
        let '(w, (size, err)) := c in
        _ <- gcs_Close w ;;                          (* defer w.Close() *)
        match err with
        | Some err =>
            let fullPath := PathJoin s [bucketName s; name] in
            ret (0%Z, Some (Wrapf "failed to write file %q: %w" [fullPath] err))
        | None => ret (size, None)
        end
  end.

(** The loop of [List] over the iterator.  [it_Next] yields an object
    exactly when one remains, so the last case of the inner match does
    not arise. *)
Fixpoint List_loop (s : t) (prefix : string) (it : Iterator)
  (objects : list ObjectInfo.t) : io (list ObjectInfo.t * option error) :=
  n <- it_Next (bucketName s) prefix it ;;
  let (attrs, err) := n in
  match err with
  | Some err =>
      if is_Done err then ret (objects, None)
      else
        let fullPath := PathJoin s [bucketName s; prefix] in
        ret ([], Some (Wrapf "failed to list %q: %w" [fullPath] err))
  | None =>
      match attrs, it with
      | Some attrs, _ :: it' =>
          List_loop s prefix it'
            (objects ++ [ObjectInfo.mk (PathJoin s [prefix; attrs_Name attrs])
                                       (attrs_Size attrs) (attrs_Updated attrs)
                                       (attrs_Metadata attrs)])
      | _, _ => ret (objects, None)
      end
  end.

Definition List (s : t) (prefix : string) : io (list ObjectInfo.t * option error) :=
  match checkClientAndBucket s with
  | Some err => ret ([], Some (Wrapf "invalid storage client: %w" [] err))
  | None =>
      if String.eqb prefix "" then ret ([], Some (Errorf "prefix required" []))
      else
        it <- gcs_Objects (bucketName s) prefix ;;
        List_loop s prefix it []
  end.

Definition Copy (s : t) (src dst : string) : io (option error) :=
  match checkClientAndBucket s with
  | Some err => ret (Some (Wrapf "invalid storage client: %w" [] err))
  | None =>
      if String.eqb src "" then ret (Some (Errorf "src required" []))
      else if String.eqb dst "" then ret (Some (Errorf "dst required" []))
      else
        err <- gcs_Copy (bucketName s) src dst ;;
        match err with
        | Some err =>
            ret (Some (Wrapf "failed to copy object from %q to %q: %w" [src; dst] err))
        | None => ret None
        end
  end.

Definition Delete (s : t) (name : string) : io (option error) :=
  match checkClientAndBucket s with
  | Some err => ret (Some (Wrapf "invalid storage client: %w" [] err))
  | None =>
      if String.eqb name "" then ret (Some (Errorf "name required" []))
      else
        err <- gcs_Delete (bucketName s) name ;;
        match err with
        | Some err =>
            let fullPath := PathJoin s [bucketName s; name] in
            ret (Some (Wrapf "failed to delete file %q: %w" [fullPath] err))
        | None => ret None
        end
  end.

Definition Move (s : t) (src dst : string) : io (option error) :=
  match checkClientAndBucket s with
  | Some err => ret (Some (Wrapf "invalid storage client: %w" [] err))
  | None =>
      if String.eqb src "" then ret (Some (Errorf "src required" []))
      else if String.eqb dst "" then ret (Some (Errorf "dst required" []))
      else
        err <- Copy s src dst ;;
        match err with
        | Some err => ret (Some (Wrapf "failed to copy file %q to %q: %w" [src; dst] err))
        | None =>
            err <- Delete s src ;;
            match err with
            | Some err => ret (Some (Wrapf "failed to delete file %q: %w" [src] err))
            | None => ret None
            end
        end
  end.

(** The loop of [DeleteAll] over the iterator; the last case of the inner
    match does not arise here either. *)
Fixpoint DeleteAll_loop (s : t) (prefix : string) (it : Iterator) : io (option error) :=
  n <- it_Next (bucketName s) prefix it ;;
  let (attrs, err) := n in
  match err with
  | Some err =>
      if is_Done err then ret None
      else
        let fullPath := PathJoin s [bucketName s; prefix] in
        ret (Some (Wrapf "failed to list %q: %w" [fullPath] err))
  | None =>
      match attrs, it with
      | Some attrs, _ :: it' =>
          err <- gcs_Delete (bucketName s) (attrs_Name attrs) ;;
          match err with
          | Some err => ret (Some (Wrapf "failed to delete %s: %w" [attrs_Name attrs] err))
          | None => DeleteAll_loop s prefix it'
          end
      | _, _ => ret None
      end
  end.

Definition DeleteAll (s : t) (prefix : string) : io (option error) :=
  match checkClientAndBucket s with
  | Some err => ret (Some (Wrapf "invalid storage client: %w" [] err))
  | None =>
      if String.eqb prefix "" then ret (Some (Errorf "prefix required" []))
      else
        it <- gcs_Objects (bucketName s) prefix ;;
        DeleteAll_loop s prefix it
  end.

End GCSStorage.

#[global] Instance GCSStorage_Storage : Storage.t GCSStorage.t := {
  Storage.Name := GCSStorage.Name;
  Storage.Get := GCSStorage.Get;
  Storage.Put := GCSStorage.Put;
  Storage.List := GCSStorage.List;
  Storage.Copy := GCSStorage.Copy;
  Storage.Move := GCSStorage.Move;
  Storage.Delete := GCSStorage.Delete;
  Storage.DeleteAll := GCSStorage.DeleteAll;
  Storage.PathJoin := GCSStorage.PathJoin;
}.

(** ** Worlds to run the methods in *)

Definition empty_world : world := mkWorld ∅ ∅ 0 [] [].

Definition hello : list Byte.byte := list_byte_of_string "hello".

Definition local_data : LocalStorage.t := LocalStorage.NewLocalStorage "/data" "local".
Definition cloud_bkt : GCSStorage.t :=
  GCSStorage.NewGCSStorage (Some StorageClient) "bkt" "cloud".

(** An environment in which finishing the upload of [a/b.txt] fails. *)
Definition close_fails : world :=
  set_faults [(GcsClose "bkt" "a/b.txt", 0)] empty_world.

(** What [Info] yields for a directory entry, and the descriptor local
    [List] makes of the entry, in a file system [m] with failing calls
    [fl]. *)
Definition info_of (m : gmap string node) (fl : list (call * nat)) (e : DirEntry)
  : result FileInfo :=
  match fault_of (SysLstat (de_path e)) fl with
  | Some _ => Err ErrIO
  | None =>
      match os_stat m (de_path e) with
      | Ok (File data t) => Ok (mkFileInfo (Z.of_nat (length data)) t)
      | Ok (Directory _) => Ok (mkFileInfo 0 0)
      | Err err => Err err
      end
  end.

Definition object_of (prefix : string) (m : gmap string node) (fl : list (call * nat))
  (e : DirEntry) : option ObjectInfo.t :=
  if de_IsDir e then None
  else match info_of m fl e with
       | Ok info =>
           Some (ObjectInfo.mk (Path.Join [prefix; de_Name e])
                               (fi_Size info) (fi_ModTime info) ∅)
       | Err _ => None
       end.

(** The fallback of [Move] in the words of the specification: [Copy],
    followed by [Delete] of the source; the first failure ends the move
    and is reported. *)
Definition copy_then_delete (copy delete : io (option error)) (src dst : string)
  : io (option error) :=
  err <- copy ;;
  match err with
  | Some err => ret (Some (Wrapf "failed to copy file %q to %q: %w" [src; dst] err))
  | None =>
      err <- delete ;;
      match err with
      | Some err => ret (Some (Wrapf "failed to delete file %q: %w" [src] err))
      | None => ret None
      end
  end.

(** An operation is refused for an invalid argument: it returns an error
    of that class and leaves the world, its call log included, as it
    was. *)
Definition refused {A} (err : A -> option error) (m : io A) (w : world) : Prop :=
  exec m w = w /\ exists e, err (run m w) = Some e /\ InvalidArgument e.

(** * Properties *)

(** ** The path functions on the paths of the scenarios *)

Example clean_1 : Path.Clean "a//b/./c/.." = "a/b". Proof. reflexivity. Qed.
Example clean_2 : Path.Clean "/../a" = "/a". Proof. reflexivity. Qed.
Example clean_3 : Path.Clean "../../a/../.." = "../../..". Proof. reflexivity. Qed.
Example clean_4 : Path.Clean "" = ".". Proof. reflexivity. Qed.
Example clean_5 : Path.Clean "/" = "/". Proof. reflexivity. Qed.
Example clean_6 : Path.Clean "a/.." = ".". Proof. reflexivity. Qed.
Example join_1 : Path.Join ["/data"; "a/b.txt"] = "/data/a/b.txt". Proof. reflexivity. Qed.
Example join_2 : Path.Join [""; ""] = "". Proof. reflexivity. Qed.
Example join_3 : Path.Join ["a"; "a/b.txt"] = "a/a/b.txt". Proof. reflexivity. Qed.
Example join_4 : Path.Join [""; "a"; ""; "b"] = "a/b". Proof. reflexivity. Qed.
Example dir_1 : Path.Dir "/data/a/b.txt" = "/data/a". Proof. reflexivity. Qed.
Example dir_2 : Path.Dir "/data" = "/". Proof. reflexivity. Qed.
Example dir_3 : Path.Dir "data" = ".". Proof. reflexivity. Qed.
Example dir_4 : Path.Dir "/" = "/". Proof. reflexivity. Qed.
Example parents_1 : Path.parents "/data/a/b.txt" = ["/data/a"; "/data"; "/"].
Proof. reflexivity. Qed.
Example parents_2 : Path.parents "a/b" = ["a"; "."]. Proof. reflexivity. Qed.
Example under_1 : Path.under "/data/a" "/data/ab" = false. Proof. reflexivity. Qed.
Example under_2 : Path.under "/data/a" "/data/a/b/c" = true. Proof. reflexivity. Qed.


(** ** Empty arguments *)

Lemma InvalidArgument_name : InvalidArgument (Errorf "name required" []).
Proof. unfold InvalidArgument; auto. Qed.
Lemma InvalidArgument_prefix : InvalidArgument (Errorf "prefix required" []).
Proof. unfold InvalidArgument; auto. Qed.
Lemma InvalidArgument_src : InvalidArgument (Errorf "src required" []).
Proof. unfold InvalidArgument; auto. Qed.
Lemma InvalidArgument_dst : InvalidArgument (Errorf "dst required" []).
Proof. unfold InvalidArgument; auto. Qed.

Create HintDb storage.

#[local] Hint Resolve InvalidArgument_name InvalidArgument_prefix
  InvalidArgument_src InvalidArgument_dst : storage.

Lemma Unconfigured_not_InvalidArgument e : Unconfigured e -> ~ InvalidArgument e.
Proof.
  intros (fmt & what & -> & _) [H | [H | [H | H]]]; discriminate H.
Qed.

(** C4, as stated, fails: a local backend without a root directory
    answers [Get] of the empty name with the configuration error, which
    is not an invalid-argument error. *)
Lemma C4_unconfigured_counterexample :
  ~ (forall (s : LocalStorage.t) (w : world),
       refused snd (LocalStorage.Get s "") w).
Proof.
  intros H.
  destruct (H (LocalStorage.NewLocalStorage "" "local") empty_world)
    as (_ & e & He & Hinv).
  vm_compute in He. injection He as <-.
  revert Hinv. apply Unconfigured_not_InvalidArgument.
  exists "invalid root path: %w", "root dir required". auto.
Qed.

(** C4, amended: on a configured backend, every operation called with an
    empty name, prefix, src or dst returns an invalid-argument error and
    makes no call: the world and its call log are unchanged. *)
Theorem C4_empty_argument_refused
  (ls : LocalStorage.t) (gs : GCSStorage.t) (w : world)
  (r : Reader) (opts : option PutOptions.t) (x : string)
  (Hls : LocalStorage.checkRootDir ls = None)
  (Hgs : GCSStorage.checkClientAndBucket gs = None) :
  (refused snd (LocalStorage.Get ls "") w /\
   refused snd (LocalStorage.Put ls "" r opts) w /\
   refused snd (LocalStorage.List ls "") w /\
   refused id (LocalStorage.Copy ls "" x) w /\
   refused id (LocalStorage.Copy ls x "") w /\
   refused id (LocalStorage.Move ls "" x) w /\
   refused id (LocalStorage.Move ls x "") w /\
   refused id (LocalStorage.Delete ls "") w /\
   refused id (LocalStorage.DeleteAll ls "") w) /\
  (refused snd (GCSStorage.Get gs "") w /\
   refused snd (GCSStorage.Put gs "" r opts) w /\
   refused snd (GCSStorage.List gs "") w /\
   refused id (GCSStorage.Copy gs "" x) w /\
   refused id (GCSStorage.Copy gs x "") w /\
   refused id (GCSStorage.Move gs "" x) w /\
   refused id (GCSStorage.Move gs x "") w /\
   refused id (GCSStorage.Delete gs "") w /\
   refused id (GCSStorage.DeleteAll gs "") w).
Proof.
  unfold refused, run, exec,
    LocalStorage.Get, LocalStorage.Put, LocalStorage.List, LocalStorage.Copy,
    LocalStorage.Move, LocalStorage.Delete, LocalStorage.DeleteAll,
    GCSStorage.Get, GCSStorage.Put, GCSStorage.List, GCSStorage.Copy,
    GCSStorage.Move, GCSStorage.Delete, GCSStorage.DeleteAll.
  rewrite Hls, Hgs. cbn [String.eqb].
  destruct (String.eqb x "") eqn:Hx;
    repeat split; cbn [ret fst snd id]; eauto with storage.
Qed.

Lemma C4_empty_argument_refused_witness :
  refused snd (LocalStorage.Get local_data "") empty_world /\
  refused id (GCSStorage.Move cloud_bkt "a/b.txt" "") empty_world.
Proof.
  pose proof (C4_empty_argument_refused local_data cloud_bkt empty_world
                (bytes_Reader hello) None "a/b.txt" eq_refl eq_refl) as H.
  split; [apply H | apply H].
Defined.


(** ** The scenario of the specification on the local backend *)

Example local_scenario :
  let put := LocalStorage.Put local_data "a/b.txt" (bytes_Reader hello) None in
  let w1 := exec put empty_world in
  let w2 := exec (LocalStorage.Move local_data "a/b.txt" "c/d.txt") w1 in
  run put empty_world = (5%Z, None) /\
  (ObjectInfo.Name <$> fst (run (LocalStorage.List local_data "a") w1) = ["a/b.txt"] /\
   ObjectInfo.Size <$> fst (run (LocalStorage.List local_data "a") w1) = [5%Z]) /\
  run (LocalStorage.Move local_data "a/b.txt" "c/d.txt") w1 = None /\
  run (LocalStorage.Get local_data "a/b.txt") w2 =
    (None, Some (Wrapf "failed to open file %q: %w" ["/data/a/b.txt"] ErrNotExist)) /\
  run (r <- LocalStorage.Get local_data "c/d.txt" ;;
       match fst r with Some rc => io_ReadAll rc | None => ret ([], snd r) end) w2 =
    (hello, None).
Proof. vm_compute. repeat split. Qed.

(** ** Listing on the cloud backend *)

(** C2: on the cloud backend the code departs from the claim.  After
    [Put] of the five bytes of [hello] at [a/b.txt] into an empty bucket,
    [List] of [a] returns one entry of size 5, but its name is
    [a/a/b.txt]: the prefix is joined to the full object name. *)
Theorem C2_cloud_list_repeats_prefix :
  let put := GCSStorage.Put cloud_bkt "a/b.txt" (bytes_Reader hello) None in
  let listed := run (GCSStorage.List cloud_bkt "a") (exec put empty_world) in
  run put empty_world = (5%Z, None) /\
  snd listed = None /\
  ObjectInfo.Name <$> fst listed = ["a/a/b.txt"] /\
  ObjectInfo.Size <$> fst listed = [5%Z].
Proof. vm_compute. repeat split. Qed.

(** ** Uploads whose completion fails *)

(** C3: on the cloud backend the code departs from the claim.  When the
    call that finishes the upload fails, [Put] still returns the byte
    count and no error, and no object has been stored. *)
Theorem C3_cloud_put_hides_failed_close :
  let put := GCSStorage.Put cloud_bkt "a/b.txt" (bytes_Reader hello) None in
  run put close_fails = (5%Z, None) /\
  gcs (exec put close_fails) !! ("bkt", "a/b.txt") = None /\
  log (exec put close_fails) = [GcsWrite "bkt" "a/b.txt"; GcsClose "bkt" "a/b.txt"].
Proof. vm_compute. repeat split. Qed.

(** C1: on the cloud backend the code departs from the claim.  In the
    same environment [Put] of [hello] at [a/b.txt] returns success, and
    the [Get] that follows finds no object. *)
Theorem C1_cloud_round_trip_broken :
  let put := GCSStorage.Put cloud_bkt "a/b.txt" (bytes_Reader hello) None in
  snd (run put close_fails) = None /\
  run (GCSStorage.Get cloud_bkt "a/b.txt") (exec put close_fails) =
    (None, Some (Wrapf "failed to open file %q: %w" ["bkt/a/b.txt"] ErrObjectNotExist)).
Proof. vm_compute. repeat split. Qed.

(** ** Unfolding the monad *)

Lemma eqb_nonempty (x : string) : x <> "" -> String.eqb x "" = false.
Proof. intros H. now apply String.eqb_neq. Qed.


Lemma bind_eq {A B} (m : io A) (k : A -> io B) w a w' :
  m w = (a, w') -> bind m k w = k a w'.
Proof. unfold bind. now intros ->. Qed.

Lemma call_out_eq c w : call_out c w = (fault_of c (faults w), tick c w).
Proof. reflexivity. Qed.

(** ** Removal on the local backend *)



(** ** Creating the directories of a path *)

Lemma mkdir_all_ok perm chain (m : gmap string node) :
  (forall q, q ∈ chain -> is_file m q = false) ->
  fst (mkdir_all perm chain m) = None.
Proof.
  induction chain as [| p ups IH]; intros Hfiles; cbn; [reflexivity |].
  pose proof (Hfiles p ltac:(left)) as Hp. unfold is_file in Hp.
  destruct (m !! p) as [[? ? | ?] |]; try discriminate; [reflexivity |].
  destruct (mkdir_all perm ups m) as [e m'] eqn:Hrec.
  assert (e = None) as ->; [| reflexivity].
  apply IH. intros q Hq. apply Hfiles. now right.
Qed.

Lemma mkdir_all_other perm chain (m : gmap string node) k :
  k ∉ chain -> snd (mkdir_all perm chain m) !! k = m !! k.
Proof.
  induction chain as [| p ups IH]; intros Hk; cbn; [reflexivity |].
  apply not_elem_of_cons in Hk as [Hne Hk].
  destruct (m !! p) as [[? ? | ?] |]; try reflexivity.
  specialize (IH Hk).
  destruct (mkdir_all perm ups m) as [[e |] m']; cbn in *; [exact IH |].
  rewrite lookup_insert_ne by congruence. exact IH.
Qed.

Lemma mkdir_all_new perm p ups (m : gmap string node) :
  fst (mkdir_all perm (p :: ups) m) = None -> m !! p = None ->
  snd (mkdir_all perm (p :: ups) m) !! p = Some (Directory perm).
Proof.
  cbn. intros Hok Hp. rewrite Hp in *.
  destruct (mkdir_all perm ups m) as [[e |] m']; cbn in *; [discriminate |].
  apply lookup_insert_eq.
Qed.

(** ** What single calls do *)

Lemma os_MkdirAll_eq p perm w :
  fault_of (SysMkdirAll p perm) (faults w) = None ->
  os_MkdirAll p perm w =
    (fst (mkdir_all perm (p :: Path.parents p) (fs w)),
     set_fs (snd (mkdir_all perm (p :: Path.parents p) (fs w))) (tick (SysMkdirAll p perm) w)).
Proof.
  intros Hc. unfold os_MkdirAll.
  rewrite (bind_eq _ _ _ _ _ (call_out_eq _ _)), Hc.
  unfold bind, get_fs, put_fs, ret.
  change (fs (tick (SysMkdirAll p perm) w)) with (fs w).
  now destruct (mkdir_all perm (p :: Path.parents p) (fs w)).
Qed.

Lemma os_Rename_missing src dst w :
  fs w !! src = None ->
  exists e, os_Rename src dst w = (Some e, tick (SysRename src dst) w).
Proof.
  intros Hs. unfold os_Rename.
  rewrite (bind_eq _ _ _ _ _ (call_out_eq _ _)).
  destruct (fault_of _ _); [now eexists |].
  unfold bind, get_fs, ret, os_stat.
  change (fs (tick (SysRename src dst) w)) with (fs w). rewrite Hs.
  destruct (existsb _ _); now eexists.
Qed.

Lemma os_Open_missing p w :
  fs w !! p = None ->
  exists e, os_Open p w = (Err e, tick (SysOpen p) w).
Proof.
  intros Hs. unfold os_Open.
  rewrite (bind_eq _ _ _ _ _ (call_out_eq _ _)).
  destruct (fault_of _ _); [now eexists |].
  unfold bind, get_fs, ret, os_stat.
  change (fs (tick (SysOpen p) w)) with (fs w). rewrite Hs.
  destruct (existsb _ _); now eexists.
Qed.

(** ** Moving on the local backend when the source is absent *)

(** C9: local [Move] creates the directories of the destination, with
    mode 0755, before it tries the rename and before anything looks at
    the source.  When nothing stands at the source path the move fails,
    and the directories it made stay: the file system has changed. *)
Theorem C9_local_move_creates_dst_dirs_first
  (s : LocalStorage.t) (src dst : string) (w : world)
  (Hcfg : LocalStorage.checkRootDir s = None)
  (Hsrc : src <> "") (Hdst : dst <> "")
  (Hcall : fault_of (SysMkdirAll (Path.Dir (Path.Join [LocalStorage.rootDir s; dst]))
                                 perm_0755) (faults w) = None)
  (Hfree : forall q,
      q ∈ Path.Dir (Path.Join [LocalStorage.rootDir s; dst])
          :: Path.parents (Path.Dir (Path.Join [LocalStorage.rootDir s; dst])) ->
      is_file (fs w) q = false /\ q <> Path.Join [LocalStorage.rootDir s; src])
  (Habsent : fs w !! Path.Join [LocalStorage.rootDir s; src] = None)
  (Hnew : fs w !! Path.Dir (Path.Join [LocalStorage.rootDir s; dst]) = None) :
  let srcPath := Path.Join [LocalStorage.rootDir s; src] in
  let dstPath := Path.Join [LocalStorage.rootDir s; dst] in
  let w' := exec (LocalStorage.Move s src dst) w in
  run (LocalStorage.Move s src dst) w <> None /\
  fs w' !! Path.Dir dstPath = Some (Directory perm_0755) /\
  fs w' <> fs w /\
  log w' = (log w ++ [SysMkdirAll (Path.Dir dstPath) perm_0755;
                      SysRename srcPath dstPath; SysOpen srcPath])%list.
Proof.
  intros srcPath dstPath w'. subst w'.
  fold srcPath in Hfree, Habsent. fold dstPath in Hcall, Hfree, Hnew.
  set (dir := Path.Dir dstPath) in *.
  set (m1 := snd (mkdir_all perm_0755 (dir :: Path.parents dir) (fs w))).
  assert (exists e,
    LocalStorage.Move s src dst w =
      (Some e, tick (SysOpen srcPath) (tick (SysRename srcPath dstPath)
                 (set_fs m1 (tick (SysMkdirAll dir perm_0755) w))))) as [e Hmove].
  { unfold LocalStorage.Move, LocalStorage.Copy.
    rewrite Hcfg, (eqb_nonempty _ Hsrc), (eqb_nonempty _ Hdst).
    fold srcPath dstPath dir. clearbody srcPath dstPath dir.
    assert (fst (mkdir_all perm_0755 (dir :: Path.parents dir) (fs w)) = None) as Hok.
    { apply mkdir_all_ok. intros q Hq. now apply Hfree. }
    assert (m1 !! srcPath = None) as Hgone.
    { subst m1. rewrite mkdir_all_other; [exact Habsent |].
      intros Hin. now destruct (Hfree _ Hin). }
    rewrite (bind_eq _ _ _ _ _ (os_MkdirAll_eq _ _ _ Hcall)), Hok. fold m1.
    destruct (os_Rename_missing srcPath dstPath
                (set_fs m1 (tick (SysMkdirAll dir perm_0755) w)) Hgone) as [e1 He1].
    rewrite (bind_eq _ _ _ _ _ He1).
    destruct (os_Open_missing srcPath
                (tick (SysRename srcPath dstPath)
                   (set_fs m1 (tick (SysMkdirAll dir perm_0755) w))) Hgone) as [e2 He2].
    unfold bind at 1 2. rewrite He2. now eexists. }
  assert (m1 !! dir = Some (Directory perm_0755)) as Hdir.
  { apply mkdir_all_new; [| exact Hnew].
    apply mkdir_all_ok. intros q Hq. now apply Hfree. }
  unfold run, exec. rewrite Hmove. cbn.
  split_and!; [discriminate | exact Hdir | | now rewrite <- !app_assoc].
  intros Heq. rewrite Heq in Hdir. congruence.
Qed.

Lemma C9_local_move_witness :
  let w' := exec (LocalStorage.Move local_data "x.txt" "c/d.txt") empty_world in
  run (LocalStorage.Move local_data "x.txt" "c/d.txt") empty_world <> None /\
  fs w' !! "/data/c" = Some (Directory perm_0755) /\
  fs w' <> fs empty_world /\
  log w' = [SysMkdirAll "/data/c" perm_0755;
            SysRename "/data/x.txt" "/data/c/d.txt"; SysOpen "/data/x.txt"].
Proof.
  apply (C9_local_move_creates_dst_dirs_first local_data "x.txt" "c/d.txt" empty_world);
    try reflexivity; try discriminate.
  intros q Hq. vm_compute in Hq.
  repeat (apply elem_of_cons in Hq as [-> | Hq]); try (split; [reflexivity | discriminate]).
  now apply elem_of_nil in Hq.
Defined.

(** ** Listing a prefix under which there is nothing *)


Lemma matches_spec (bucket prefix : string) (kv : string * string * gobject) :
  matches bucket prefix kv <-> kv.1.1 = bucket /\ String.prefix prefix kv.1.2 = true.
Proof.
  unfold matches. rewrite andb_True, !Is_true_true, String.eqb_eq. reflexivity.
Qed.

Lemma elem_of_matching (bucket prefix : string) (m : gmap (string * string) gobject)
  (kv : string * string * gobject) :
  kv ∈ filter (matches bucket prefix) (map_to_list m) <->
  m !! kv.1 = Some kv.2 /\ kv.1.1 = bucket /\ String.prefix prefix kv.1.2 = true.
Proof.
  rewrite list_elem_of_filter, matches_spec, elem_of_map_to_list'. tauto.
Qed.


Lemma gcs_Objects_eq bucket prefix w :
  gcs_Objects bucket prefix w =
    (merge_sort attrs_le
       (attrs_of <$> filter (matches bucket prefix) (map_to_list (gcs w))), w).
Proof. reflexivity. Qed.

Lemma it_Next_eq bucket prefix (it : Iterator) w :
  fault_of (GcsNext bucket prefix) (faults w) = None ->
  it_Next bucket prefix it w =
    (match it with [] => (None, Some IteratorDone) | a :: _ => (Some a, None) end,
     tick (GcsNext bucket prefix) w).
Proof.
  intros Hc. unfold it_Next.
  rewrite (bind_eq _ _ _ _ _ (call_out_eq _ _)), Hc. now destruct it.
Qed.



(** ** Deleting all that is under a prefix *)



Lemma gcs_Delete_eq bucket name w o :
  fault_of (GcsDelete bucket name) (faults w) = None ->
  gcs w !! (bucket, name) = Some o ->
  gcs_Delete bucket name w =
    (None, set_gcs (delete (bucket, name) (gcs w)) (tick (GcsDelete bucket name) w)).
Proof.
  intros Hc Ho. unfold gcs_Delete.
  rewrite (bind_eq _ _ _ _ _ (call_out_eq _ _)), Hc.
  unfold bind, get_gcs, put_gcs, ret.
  change (gcs (tick (GcsDelete bucket name) w)) with (gcs w). now rewrite Ho.
Qed.

(** The loop deletes every object the iterator yields, and nothing
    else, when the objects are there and no call fails. *)
Lemma DeleteAll_loop_spec (s : GCSStorage.t) (prefix : string) (it : Iterator) :
  forall w,
    faults w = [] ->
    NoDup (attrs_Name <$> it) ->
    (forall a, a ∈ it -> is_Some (gcs w !! (GCSStorage.bucketName s, attrs_Name a))) ->
    exists w',
      GCSStorage.DeleteAll_loop s prefix it w = (None, w') /\
      faults w' = [] /\
      forall k, gcs w' !! k =
                if decide (k ∈ (fun a => (GCSStorage.bucketName s, attrs_Name a)) <$> it)
                then None else gcs w !! k.
Proof.
  induction it as [| a it IH]; intros w Hfaults Hnodup Hthere.
  - cbn [GCSStorage.DeleteAll_loop].
    rewrite (bind_eq _ _ _ _ _ (it_Next_eq _ _ _ _ ltac:(now rewrite Hfaults))).
    eexists. split; [reflexivity |]. split; [exact Hfaults |].
    intros k. cbn. case_decide as Hk; [now apply elem_of_nil in Hk | reflexivity].
  - cbn [GCSStorage.DeleteAll_loop].
    rewrite (bind_eq _ _ _ _ _ (it_Next_eq _ _ _ _ ltac:(now rewrite Hfaults))).
    cbn [is_Done].
    destruct (Hthere a ltac:(left)) as [o Ho].
    set (w1 := tick (GcsNext (GCSStorage.bucketName s) prefix) w).
    rewrite (bind_eq _ _ _ _ _
               (gcs_Delete_eq _ _ w1 o ltac:(now cbn; rewrite Hfaults) Ho)).
    apply NoDup_cons in Hnodup as [Hfresh Hnodup].
    destruct (IH (set_gcs (delete (GCSStorage.bucketName s, attrs_Name a) (gcs w1))
                          (tick (GcsDelete (GCSStorage.bucketName s) (attrs_Name a)) w1)))
      as (w' & Hloop & Hfaults' & Hgcs); [exact Hfaults | exact Hnodup | |].
    { intros b Hb. cbn. rewrite lookup_delete_ne; [apply Hthere; now right |].
      intros Heq. apply Hfresh. injection Heq as ->.
      apply list_elem_of_fmap. now exists b. }
    exists w'. split; [exact Hloop |]. split; [exact Hfaults' |].
    intros k. rewrite Hgcs. cbn.
    destruct (decide (k = (GCSStorage.bucketName s, attrs_Name a))) as [-> | Hne].
    + rewrite lookup_delete_eq.
      rewrite (decide_True (P := _ ∈ _ :: _)) by left. now case_decide.
    + rewrite lookup_delete_ne by congruence.
      repeat case_decide; try reflexivity.
      * exfalso. match goal with H : ¬ _ ∈ _ :: _ |- _ => apply H end. now right.
      * exfalso. match goal with H : _ ∈ _ :: _ |- _ =>
                   apply elem_of_cons in H as [? | ?] end; contradiction.
Qed.

Lemma elem_of_listing (bucket prefix : string) (m : gmap (string * string) gobject)
  (a : ObjectAttrs) :
  a ∈ merge_sort attrs_le (attrs_of <$> filter (matches bucket prefix) (map_to_list m)) <->
  exists kv, a = attrs_of kv /\ m !! kv.1 = Some kv.2 /\ kv.1.1 = bucket /\
             String.prefix prefix kv.1.2 = true.
Proof.
  rewrite merge_sort_Permutation, list_elem_of_fmap.
  split; intros (kv & Ha & Hkv); exists kv; (split; [exact Ha |]);
    now apply elem_of_matching.
Qed.

Lemma NoDup_listing (bucket prefix : string) (m : gmap (string * string) gobject) :
  NoDup (attrs_Name <$>
         merge_sort attrs_le (attrs_of <$> filter (matches bucket prefix) (map_to_list m))).
Proof.
  rewrite merge_sort_Permutation.
  apply NoDup_fmap_2_strong.
  - intros a1 a2 H1 H2 Hname.
    apply list_elem_of_fmap in H1 as (kv1 & -> & H1).
    apply list_elem_of_fmap in H2 as (kv2 & -> & H2).
    apply elem_of_matching in H1 as (Hm1 & Hb1 & _).
    apply elem_of_matching in H2 as (Hm2 & Hb2 & _).
    destruct kv1 as [[b1 n1] o1], kv2 as [[b2 n2] o2]; cbn in *. subst.
    rewrite Hm1 in Hm2. now injection Hm2 as ->.
  - apply NoDup_fmap_2_strong.
    + intros kv1 kv2 H1 H2 Heq. 
      apply elem_of_matching in H1 as (Hm1 & Hb1 & _).
      apply elem_of_matching in H2 as (Hm2 & Hb2 & _).
      destruct kv1 as [[b1 n1] o1], kv2 as [[b2 n2] o2]; cbn in *. subst.
      injection Heq as Hn _ _ _. subst.
      rewrite Hm1 in Hm2. now injection Hm2 as ->.
    + apply NoDup_filter, NoDup_map_to_list.
Qed.




(** ** Listing a directory on the local backend *)

Lemma os_ReadDir_eq p w perm :
  fault_of (SysReadDir p) (faults w) = None ->
  fs w !! p = Some (Directory perm) ->
  os_ReadDir p w = (Ok (dir_entries (fs w) p), tick (SysReadDir p) w).
Proof.
  intros Hc Hd. unfold os_ReadDir.
  rewrite (bind_eq _ _ _ _ _ (call_out_eq _ _)), Hc.
  unfold bind, get_fs, ret, os_stat.
  change (fs (tick (SysReadDir p) w)) with (fs w). now rewrite Hd.
Qed.

Lemma de_Info_eq e w :
  de_Info e w = (info_of (fs w) (faults w) e, tick (SysLstat (de_path e)) w).
Proof.
  unfold de_Info, info_of.
  rewrite (bind_eq _ _ _ _ _ (call_out_eq _ _)).
  destruct (fault_of _ _); [reflexivity |].
  unfold bind, get_fs, ret.
  change (fs (tick (SysLstat (de_path e)) w)) with (fs w).
  now destruct (os_stat (fs w) (de_path e)) as [[? ? | ?] | ?].
Qed.

Lemma omap_cons_eq {A B} (f : A -> option B) (x : A) (l : list A) :
  omap f (x :: l) = match f x with Some y => y :: omap f l | None => omap f l end.
Proof. reflexivity. Qed.

Lemma local_List_loop_spec (s : LocalStorage.t) (prefix : string) (files : list DirEntry) :
  forall objects w,
  exists w',
    LocalStorage.List_loop s prefix files objects w =
      ((objects ++ omap (object_of prefix (fs w) (faults w)) files)%list, w') /\
    fs w' = fs w /\ faults w' = faults w.
Proof.
  induction files as [| file files IH]; intros objects w; cbn [LocalStorage.List_loop omap].
  - exists w. now rewrite app_nil_r.
  - rewrite omap_cons_eq. unfold object_of at 1.
    destruct (de_IsDir file); [apply IH |].
    rewrite (bind_eq _ _ _ _ _ (de_Info_eq _ _)).
    destruct (info_of (fs w) (faults w) file) as [info | err].
    + destruct (IH (objects ++ [ObjectInfo.mk
                     (Path.ToSlash (LocalStorage.PathJoin s [prefix; de_Name file]))
                     (fi_Size info) (fi_ModTime info) ∅])
                   (tick (SysLstat (de_path file)) w)) as (w' & Hloop & Hfs & Hfl).
      exists w'. rewrite Hloop, <- app_assoc. auto.
    + destruct (IH objects (tick (SysLstat (de_path file)) w)) as (w' & Hloop & Hfs & Hfl).
      exists w'. rewrite Hloop. auto.
Qed.

Lemma is_child_spec d p : is_child d p = true <-> Path.Dir p = d /\ p <> d.
Proof.
  unfold is_child. rewrite andb_true_iff, negb_true_iff, String.eqb_eq, String.eqb_neq.
  reflexivity.
Qed.

Lemma elem_of_dir_entries (m : gmap string node) (d : string) (e : DirEntry) :
  e ∈ dir_entries m d <->
  exists k n, m !! k = Some n /\ Path.Dir k = d /\ k <> d /\ e = entry_of (k, n).
Proof.
  unfold dir_entries. rewrite merge_sort_Permutation, list_elem_of_fmap. split.
  - intros ([k n] & -> & Hin). apply list_elem_of_filter in Hin as [Hc Hin].
    apply elem_of_map_to_list in Hin. apply Is_true_true, is_child_spec in Hc as [? ?].
    now exists k, n.
  - intros (k & n & Hm & Hd & Hne & ->). exists (k, n). split; [reflexivity |].
    apply list_elem_of_filter. split; [| now apply elem_of_map_to_list].
    apply Is_true_true, is_child_spec. now split.
Qed.

(** C8: local [List] of an existing directory returns no error, and its
    result holds a descriptor for exactly the files that are directly in
    that directory and whose metadata can be read: nothing for an entry
    that is a directory, nothing for what lies deeper, nothing for an
    entry whose [Info] fails. *)
Theorem C8_local_list_immediate_files
  (s : LocalStorage.t) (prefix : string) (w : world) (perm : N)
  (Hcfg : LocalStorage.checkRootDir s = None)
  (Hprefix : prefix <> "")
  (Hcall : fault_of (SysReadDir (Path.Join [LocalStorage.rootDir s; prefix]))
                    (faults w) = None)
  (Hdir : fs w !! Path.Join [LocalStorage.rootDir s; prefix] = Some (Directory perm)) :
  let dir := Path.Join [LocalStorage.rootDir s; prefix] in
  snd (run (LocalStorage.List s prefix) w) = None /\
  forall oi,
    oi ∈ fst (run (LocalStorage.List s prefix) w) <->
    exists k data t,
      fs w !! k = Some (File data t) /\ Path.Dir k = dir /\ k <> dir /\
      fault_of (SysLstat k) (faults w) = None /\
      oi = ObjectInfo.mk (Path.Join [prefix; Path.elem_name k])
                         (Z.of_nat (length data)) t ∅.
Proof.
  intros dir. fold dir in Hcall, Hdir.
  unfold run, LocalStorage.List, LocalStorage.PathJoin.
  rewrite Hcfg, (eqb_nonempty _ Hprefix). fold dir. clearbody dir.
  rewrite (bind_eq _ _ _ _ _ (os_ReadDir_eq _ _ _ Hcall Hdir)).
  destruct (local_List_loop_spec s prefix (dir_entries (fs w) dir) []
              (tick (SysReadDir dir) w)) as (w' & Hloop & _ & _).
  rewrite (bind_eq _ _ _ _ _ Hloop). cbn.
  split; [reflexivity |]. intros oi. rewrite list_elem_of_omap. split.
  - intros (e & He & Hobj).
    apply elem_of_dir_entries in He as (k & n & Hm & Hd & Hne & ->).
    unfold object_of, info_of, os_stat in Hobj. cbn in Hobj. rewrite Hm in Hobj.
    destruct n as [data t | ?]; [| discriminate].
    destruct (fault_of (SysLstat k) (faults w)) eqn:Hf; [discriminate |].
    injection Hobj as <-. now exists k, data, t.
  - intros (k & data & t & Hm & Hd & Hne & Hf & ->).
    exists (entry_of (k, File data t)). split.
    + apply elem_of_dir_entries. now exists k, (File data t).
    + unfold object_of, info_of, os_stat. cbn. now rewrite Hf, Hm.
Qed.

Lemma C8_local_list_witness :
  let w := exec (LocalStorage.Put local_data "a/b.txt" (bytes_Reader hello) None)
             empty_world in
  snd (run (LocalStorage.List local_data "a") w) = None /\
  forall oi,
    oi ∈ fst (run (LocalStorage.List local_data "a") w) <->
    exists k data t,
      fs w !! k = Some (File data t) /\ Path.Dir k = "/data/a" /\ k <> "/data/a" /\
      fault_of (SysLstat k) (faults w) = None /\
      oi = ObjectInfo.mk (Path.Join ["a"; Path.elem_name k])
                         (Z.of_nat (length data)) t ∅.
Proof.
  intros w.
  apply (C8_local_list_immediate_files local_data "a" w perm_0755);
    [reflexivity | discriminate | reflexivity | reflexivity].
Defined.

(** ** How a move is carried out *)

Lemma os_MkdirAll_log p perm w :
  log (exec (os_MkdirAll p perm) w) = log w ++ [SysMkdirAll p perm].
Proof.
  unfold exec, os_MkdirAll. rewrite (bind_eq _ _ _ _ _ (call_out_eq _ _)).
  destruct (fault_of _ _); [reflexivity |].
  unfold bind, get_fs, put_fs, ret.
  now destruct (mkdir_all _ _ _).
Qed.

Lemma os_Rename_log src dst w :
  log (exec (os_Rename src dst) w) = log w ++ [SysRename src dst].
Proof.
  unfold exec, os_Rename. rewrite (bind_eq _ _ _ _ _ (call_out_eq _ _)).
  destruct (fault_of _ _); [reflexivity |].
  unfold bind, get_fs, put_fs, ret.
  change (fs (tick (SysRename src dst) w)) with (fs w).
  destruct (os_stat (fs w) src); [| reflexivity].
  destruct (String.eqb src dst); [reflexivity |].
  destruct (String.eqb (Path.Dir src) src); [reflexivity |].
  destruct (os_stat (fs w) (Path.Dir dst)) as [[? ? | ?] | ?]; try reflexivity.
  now destruct (rename_node _ _ _ _).
Qed.

(** C5: local [Move], once the directory of the destination is made,
    tries the rename; when the rename succeeds the move is done and no
    other call has gone out, and only when it fails does the move go on
    as [Copy] followed by [Delete] of the source.  Cloud [Move] is always
    [Copy] followed by [Delete] of the source, and makes no other call
    first. *)
Theorem C5_move_is_rename_else_copy_then_delete
  (ls : LocalStorage.t) (gs : GCSStorage.t) (src dst : string) (w : world)
  (Hls : LocalStorage.checkRootDir ls = None)
  (Hgs : GCSStorage.checkClientAndBucket gs = None)
  (Hsrc : src <> "") (Hdst : dst <> "") :
  let srcPath := Path.Join [LocalStorage.rootDir ls; src] in
  let dstPath := Path.Join [LocalStorage.rootDir ls; dst] in
  let mkdir := os_MkdirAll (Path.Dir dstPath) perm_0755 in
  let rename := os_Rename srcPath dstPath in
  let w1 := exec mkdir w in
  let w2 := exec rename w1 in
  (run mkdir w = None ->
   (run rename w1 = None ->
      LocalStorage.Move ls src dst w = (None, w2) /\
      log w2 = log w ++ [SysMkdirAll (Path.Dir dstPath) perm_0755;
                         SysRename srcPath dstPath]) /\
   (run rename w1 <> None ->
      LocalStorage.Move ls src dst w =
        copy_then_delete (LocalStorage.Copy ls src dst) (LocalStorage.Delete ls src)
                         src dst w2)) /\
  GCSStorage.Move gs src dst w =
    copy_then_delete (GCSStorage.Copy gs src dst) (GCSStorage.Delete gs src) src dst w /\
  exists rest,
    log (exec (GCSStorage.Move gs src dst) w) =
      log w ++ GcsCopy (GCSStorage.bucketName gs) src dst :: rest.
Proof.
  intros srcPath dstPath mkdir rename w1 w2. split_and!.
  - intros Hmk.
    assert (log w2 = log w ++ [SysMkdirAll (Path.Dir dstPath) perm_0755;
                               SysRename srcPath dstPath]) as Hlog.
    { subst w2 w1 rename mkdir.
      now rewrite os_Rename_log, os_MkdirAll_log, <- app_assoc. }
    assert (LocalStorage.Move ls src dst w =
              let (e1, w1) := mkdir w in
              match e1 with
              | Some err =>
                  (Some (Wrapf "failed to create dst directory %q: %w"
                               [Path.Dir dstPath] err), w1)
              | None =>
                  let (e2, w2) := rename w1 in
                  match e2 with
                  | None => (None, w2)
                  | Some _ =>
                      copy_then_delete (LocalStorage.Copy ls src dst)
                                       (LocalStorage.Delete ls src) src dst w2
                  end
              end) as ->.
    { unfold LocalStorage.Move.
      rewrite Hls, (eqb_nonempty _ Hsrc), (eqb_nonempty _ Hdst).
      fold srcPath dstPath mkdir rename. unfold copy_then_delete, bind, ret.
      destruct (mkdir w) as [[e1 |] w1']; [reflexivity |].
      now destruct (rename w1') as [[e2 |] w2']. }
    clearbody mkdir rename srcPath dstPath. subst w2 w1. unfold run, exec in *.
    destruct (mkdir w) as [e w1] eqn:Hm. cbn in Hmk, Hlog |- *. subst e.
    destruct (rename w1) as [[e |] w2] eqn:Hr; cbn in Hlog |- *.
    + split; [discriminate | reflexivity].
    + split; [auto | congruence].
  - unfold GCSStorage.Move.
    now rewrite Hgs, (eqb_nonempty _ Hsrc), (eqb_nonempty _ Hdst).
  - unfold exec, GCSStorage.Move, GCSStorage.Copy, GCSStorage.Delete.
    rewrite Hgs, (eqb_nonempty _ Hsrc), (eqb_nonempty _ Hdst).
    unfold gcs_Copy, gcs_Delete, bind, call_out, get_gcs, get_clock, put_gcs, ret.
    cbn.
    destruct (fault_of (GcsCopy _ _ _) _); cbn; [now exists [] |].
    destruct (gcs w !! (GCSStorage.bucketName gs, src)); cbn; [| now exists []].
    exists [GcsDelete (GCSStorage.bucketName gs) src].
    destruct (fault_of (GcsDelete _ _) _); cbn; [now rewrite <- app_assoc |].
    destruct (_ !! _); cbn; now rewrite <- app_assoc.
Qed.

Lemma C5_move_witness :
  let w := exec (LocalStorage.Put local_data "a/b.txt" (bytes_Reader hello) None)
             empty_world in
  LocalStorage.Move local_data "a/b.txt" "c/d.txt" w =
    (None, exec (os_Rename "/data/a/b.txt" "/data/c/d.txt")
             (exec (os_MkdirAll "/data/c" perm_0755) w)) /\
  GCSStorage.Move cloud_bkt "a/b.txt" "c/d.txt" w =
    copy_then_delete (GCSStorage.Copy cloud_bkt "a/b.txt" "c/d.txt")
                     (GCSStorage.Delete cloud_bkt "a/b.txt") "a/b.txt" "c/d.txt" w.
Proof.
  intros w.
  pose proof (C5_move_is_rename_else_copy_then_delete local_data cloud_bkt
                "a/b.txt" "c/d.txt" w eq_refl eq_refl
                ltac:(discriminate) ltac:(discriminate)) as (Hlocal & Hcloud & _).
  split; [| exact Hcloud].
  apply (proj1 (Hlocal eq_refl)). reflexivity.
Defined.

(** ** What holds of [Put] and [Get] on both backends *)

(** Whenever [Put] returns an error, the count it returns is zero. *)
Lemma local_Put_error_zero (s : LocalStorage.t) name r opts w :
  snd (run (LocalStorage.Put s name r opts) w) <> None ->
  fst (run (LocalStorage.Put s name r opts) w) = 0%Z.
Proof.
  unfold run, LocalStorage.Put.
  destruct (LocalStorage.checkRootDir s); [reflexivity |].
  destruct (String.eqb name ""); [reflexivity |].
  unfold bind. destruct (os_MkdirAll _ _ w) as [[e |] w1]; [reflexivity |].
  destruct (os_Create _ w1) as [[f | e] w2]; [| reflexivity].
  destruct (io_Copy f r w2) as [[f' [size [e |]]] w3].
  - now destruct (os_Close f' w3).
  - destruct (os_Close f' w3). cbn. congruence.
Qed.

Lemma cloud_Put_error_zero (s : GCSStorage.t) name r opts w :
  snd (run (GCSStorage.Put s name r opts) w) <> None ->
  fst (run (GCSStorage.Put s name r opts) w) = 0%Z.
Proof.
  unfold run, GCSStorage.Put.
  destruct (GCSStorage.checkClientAndBucket s); [reflexivity |].
  destruct (String.eqb name ""); [reflexivity |].
  unfold bind. destruct (io_Copy _ r w) as [[wr [size [e |]]] w1].
  - now destruct (gcs_Close wr w1).
  - destruct (gcs_Close wr w1). cbn. congruence.
Qed.

Lemma os_MkdirAll_faults p perm w : faults (exec (os_MkdirAll p perm) w) = faults w.
Proof.
  unfold exec, os_MkdirAll. rewrite (bind_eq _ _ _ _ _ (call_out_eq _ _)).
  destruct (fault_of _ _); [reflexivity |].
  unfold bind, get_fs, put_fs, ret. now destruct (mkdir_all _ _ _).
Qed.

Lemma os_Create_ok p w f w' :
  os_Create p w = (Ok f, w') ->
  f = mkFile p /\ faults w' = faults w /\ gcs w' = gcs w /\
  exists t, fs w' !! p = Some (File [] t).
Proof.
  unfold os_Create. rewrite (bind_eq _ _ _ _ _ (call_out_eq _ _)).
  destruct (fault_of _ _); [discriminate |].
  unfold bind, get_fs, get_clock, put_fs, ret.
  change (fs (tick (SysCreate p) w)) with (fs w).
  destruct (fs w !! p) as [[? ? | ?] |]; try discriminate.
  - intros [= <- <-]. cbn. rewrite lookup_insert_eq. eauto.
  - destruct (os_stat (fs w) (Path.Dir p)) as [[? ? | ?] | ?]; try discriminate.
    intros [= <- <-]. cbn. rewrite lookup_insert_eq. eauto.
Qed.

Lemma os_Write_eq p data w old t0 :
  fs w !! p = Some (File old t0) ->
  let n := match fault_of (SysWrite p) (faults w) with
           | Some k => Nat.min k (length data)
           | None => length data
           end in
  os_Write (mkFile p) data w =
    (mkFile p,
     (n, match fault_of (SysWrite p) (faults w) with Some _ => Some ErrIO | None => None end),
     set_fs (<[p := File (old ++ take n data) (S (clock w))]> (fs w)) (tick (SysWrite p) w)).
Proof.
  intros Hp n. unfold os_Write. cbn [f_path].
  rewrite (bind_eq _ _ _ _ _ (call_out_eq _ _)).
  unfold bind, get_fs, get_clock, put_fs, ret.
  change (fs (tick (SysWrite p) w)) with (fs w). now rewrite Hp.
Qed.

(** A failing write to the file makes local [Put] return an error. *)
Lemma local_Put_reports_write_failure (s : LocalStorage.t) name r opts w k :
  fault_of (SysWrite (Path.Join [LocalStorage.rootDir s; name])) (faults w) = Some k ->
  snd (run (LocalStorage.Put s name r opts) w) <> None.
Proof.
  intros Hf. unfold run, LocalStorage.Put, LocalStorage.PathJoin.
  destruct (LocalStorage.checkRootDir s); [discriminate |].
  destruct (String.eqb name ""); [discriminate |].
  set (p := Path.Join [LocalStorage.rootDir s; name]) in *. clearbody p.
  unfold bind.
  destruct (os_MkdirAll _ _ w) as [[e |] w1] eqn:H1; [discriminate |].
  assert (faults w1 = faults w) as Hf1.
  { change w1 with (snd (None (A:=error), w1)). rewrite <- H1. apply os_MkdirAll_faults. }
  destruct (os_Create p w1) as [[f | e] w2] eqn:H2; [| discriminate].
  apply os_Create_ok in H2 as (-> & Hf2 & _ & t & Hp).
  unfold io_Copy, Write, OsFile_Writer, bind.
  rewrite (os_Write_eq _ _ _ _ _ Hp), Hf2, Hf1, Hf. cbn.
  discriminate.
Qed.

Lemma os_Open_eq p w n :
  fault_of (SysOpen p) (faults w) = None -> fs w !! p = Some n ->
  os_Open p w = (Ok (mkFile p), tick (SysOpen p) w).
Proof.
  intros Hc Hp. unfold os_Open.
  rewrite (bind_eq _ _ _ _ _ (call_out_eq _ _)), Hc.
  unfold bind, get_fs, ret, os_stat.
  change (fs (tick (SysOpen p) w)) with (fs w). now rewrite Hp.
Qed.

Lemma os_Read_eq p w data t :
  fault_of (SysRead p) (faults w) = None -> fs w !! p = Some (File data t) ->
  os_Read (mkFile p) w = (mkReader data None, tick (SysRead p) w).
Proof.
  intros Hc Hp. unfold os_Read. cbn [f_path].
  rewrite (bind_eq _ _ _ _ _ (call_out_eq _ _)), Hc.
  unfold bind, get_fs, ret.
  change (fs (tick (SysRead p) w)) with (fs w). now rewrite Hp.
Qed.

(** After a local [Put] that returned no error, the file holds the bytes
    given, and the byte count is their number. *)
Lemma local_Put_stores (s : LocalStorage.t) name b opts w k :
  LocalStorage.checkRootDir s = None -> name <> "" ->
  run (LocalStorage.Put s name (bytes_Reader b) opts) w = (k, None) ->
  let w' := exec (LocalStorage.Put s name (bytes_Reader b) opts) w in
  k = Z.of_nat (length b) /\ faults w' = faults w /\
  exists t, fs w' !! Path.Join [LocalStorage.rootDir s; name] = Some (File b t).
Proof.
  intros Hcfg Hname. unfold run, exec, LocalStorage.Put, LocalStorage.PathJoin.
  rewrite Hcfg, (eqb_nonempty _ Hname).
  set (p := Path.Join [LocalStorage.rootDir s; name]). clearbody p.
  unfold bind.
  destruct (os_MkdirAll _ _ w) as [[e |] w1] eqn:H1; [discriminate |].
  assert (faults w1 = faults w) as Hf1.
  { change w1 with (snd (None (A:=error), w1)). rewrite <- H1. apply os_MkdirAll_faults. }
  destruct (os_Create p w1) as [[f | e] w2] eqn:H2; [| discriminate].
  apply os_Create_ok in H2 as (-> & Hf2 & _ & t & Hp).
  unfold io_Copy, Write, OsFile_Writer, bind.
  rewrite (os_Write_eq _ _ _ _ _ Hp). cbn.
  destruct (fault_of (SysWrite p) (faults w2)); cbn; [discriminate |].
  intros [= <-]. split_and!; [reflexivity | congruence |].
  rewrite take_ge by reflexivity. rewrite lookup_insert_eq. eauto.
Qed.

(** X1: the round trip on the local backend, whatever was stored before:
    after a [Put] that returned no error, [Get] of the same name opens a stream that reads as the bytes
    put, when the environment lets the opening and the reading through. *)
Theorem local_round_trip (s : LocalStorage.t) name b opts w k :
  LocalStorage.checkRootDir s = None -> name <> "" ->
  fault_of (SysOpen (Path.Join [LocalStorage.rootDir s; name])) (faults w) = None ->
  fault_of (SysRead (Path.Join [LocalStorage.rootDir s; name])) (faults w) = None ->
  run (LocalStorage.Put s name (bytes_Reader b) opts) w = (k, None) ->
  let w' := exec (LocalStorage.Put s name (bytes_Reader b) opts) w in
  exists rc,
    run (LocalStorage.Get s name) w' = (Some rc, None) /\
    run (io_ReadAll rc) (exec (LocalStorage.Get s name) w') = (b, None).
Proof.
  intros Hcfg Hname Hopen Hread Hput w'.
  destruct (local_Put_stores s name b opts w k Hcfg Hname Hput) as (_ & Hf & t & Hp).
  fold w' in Hf, Hp. clearbody w'.
  unfold run, exec, LocalStorage.Get, LocalStorage.PathJoin.
  rewrite Hcfg, (eqb_nonempty _ Hname).
  set (p := Path.Join [LocalStorage.rootDir s; name]) in *. clearbody p.
  rewrite (bind_eq _ _ _ _ _ (os_Open_eq p w' _ ltac:(now rewrite Hf) Hp)).
  eexists. split; [reflexivity |]. cbn [fst snd ret io_ReadAll].
  now rewrite (bind_eq _ _ _ _ _
                 (os_Read_eq p (tick (SysOpen p) w') b t ltac:(now cbn; rewrite Hf) Hp)).
Qed.

Lemma apply_opts_keeps opts wr :
  w_bucket (GCSStorage.apply_opts opts wr) = w_bucket wr /\
  w_name (GCSStorage.apply_opts opts wr) = w_name wr /\
  w_buf (GCSStorage.apply_opts opts wr) = w_buf wr /\
  w_failed (GCSStorage.apply_opts opts wr) = w_failed wr.
Proof.
  unfold GCSStorage.apply_opts. destruct opts as [o |]; [| auto].
  destruct (negb _), (0 <? _)%nat; auto.
Qed.

(** X17: the round trip on the cloud backend holds when the call that
    finishes the upload is let through: after a [Put] that returned no
    error, the count is the number of bytes put and [Get] of the same
    name returns a reader of exactly those bytes. *)
Theorem cloud_round_trip_when_upload_finishes (s : GCSStorage.t) name b opts w k :
  GCSStorage.checkClientAndBucket s = None -> name <> "" ->
  fault_of (GcsClose (GCSStorage.bucketName s) name) (faults w) = None ->
  fault_of (GcsNewReader (GCSStorage.bucketName s) name) (faults w) = None ->
  run (GCSStorage.Put s name (bytes_Reader b) opts) w = (k, None) ->
  k = Z.of_nat (length b) /\
  run (GCSStorage.Get s name) (exec (GCSStorage.Put s name (bytes_Reader b) opts) w)
    = (Some (ObjectReader b), None).
Proof.
  intros Hcfg Hname Hclose Hopen.
  unfold run, exec, GCSStorage.Put, GCSStorage.Get.
  rewrite Hcfg, (eqb_nonempty _ Hname).
  destruct (apply_opts_keeps opts (gcs_NewWriter (GCSStorage.bucketName s) name))
    as (Hb & Hn & Hbuf & Hfailed).
  set (wr := GCSStorage.apply_opts opts _) in *. cbn in Hb, Hn, Hbuf, Hfailed.
  unfold io_Copy, Write, Writer_Writer, gcs_Write, gcs_Close, gcs_NewReader.
  unfold bind, call_out, get_gcs, get_clock, put_gcs, ret. cbn.
  rewrite Hb, Hn, Hbuf, Hfailed.
  destruct (fault_of (GcsWrite _ _) _); cbn; rewrite Hclose; cbn; [discriminate |].
  intros [= <-]. split; [reflexivity |].
  rewrite Hopen. cbn. now rewrite lookup_insert_eq.
Qed.

(** The defect behind C1 and C3, at every input: when the bytes are
    taken but the call that finishes the upload fails, cloud [Put]
    returns the byte count and no error, and the store is as it was. *)
Theorem cloud_Put_drops_close_error (s : GCSStorage.t) name b opts w k :
  GCSStorage.checkClientAndBucket s = None -> name <> "" ->
  fault_of (GcsWrite (GCSStorage.bucketName s) name) (faults w) = None ->
  fault_of (GcsClose (GCSStorage.bucketName s) name) (faults w) = Some k ->
  run (GCSStorage.Put s name (bytes_Reader b) opts) w = (Z.of_nat (length b), None) /\
  gcs (exec (GCSStorage.Put s name (bytes_Reader b) opts) w) = gcs w.
Proof.
  intros Hcfg Hname Hwrite Hclose.
  unfold run, exec, GCSStorage.Put.
  rewrite Hcfg, (eqb_nonempty _ Hname).
  destruct (apply_opts_keeps opts (gcs_NewWriter (GCSStorage.bucketName s) name))
    as (Hb & Hn & Hbuf & Hfailed).
  set (wr := GCSStorage.apply_opts opts _) in *. cbn in Hb, Hn, Hbuf, Hfailed.
  unfold io_Copy, Write, Writer_Writer, gcs_Write, gcs_Close.
  unfold bind, call_out, get_gcs, get_clock, put_gcs, ret. cbn.
  rewrite Hb, Hn, Hwrite. cbn. now rewrite Hclose.
Qed.



(** ** A backend that is not configured *)

(** X30: the configuration check comes before the check of the arguments: a
    backend without its target refuses every call with the configuration
    error, whatever the arguments, and makes no call of its own. *)
Theorem unconfigured_backend_refuses_first
  (ls : LocalStorage.t) (gs : GCSStorage.t) (w : world)
  (r : Reader) (opts : option PutOptions.t) (x y : string) :
  LocalStorage.checkRootDir ls <> None ->
  GCSStorage.checkClientAndBucket gs <> None ->
  let unconfigured {A} (err : A -> option error) (m : io A) :=
    exec m w = w /\ exists e, err (run m w) = Some e /\ Unconfigured e in
  (unconfigured snd (LocalStorage.Get ls x) /\
   unconfigured snd (LocalStorage.Put ls x r opts) /\
   unconfigured snd (LocalStorage.List ls x) /\
   unconfigured id (LocalStorage.Copy ls x y) /\
   unconfigured id (LocalStorage.Move ls x y) /\
   unconfigured id (LocalStorage.Delete ls x) /\
   unconfigured id (LocalStorage.DeleteAll ls x)) /\
  (unconfigured snd (GCSStorage.Get gs x) /\
   unconfigured snd (GCSStorage.Put gs x r opts) /\
   unconfigured snd (GCSStorage.List gs x) /\
   unconfigured id (GCSStorage.Copy gs x y) /\
   unconfigured id (GCSStorage.Move gs x y) /\
   unconfigured id (GCSStorage.Delete gs x) /\
   unconfigured id (GCSStorage.DeleteAll gs x)).
Proof.
  intros Hls Hgs unconfigured. subst unconfigured. cbv beta.
  unfold run, exec,
    LocalStorage.Get, LocalStorage.Put, LocalStorage.List, LocalStorage.Copy,
    LocalStorage.Move, LocalStorage.Delete, LocalStorage.DeleteAll,
    GCSStorage.Get, GCSStorage.Put, GCSStorage.List, GCSStorage.Copy,
    GCSStorage.Move, GCSStorage.Delete, GCSStorage.DeleteAll.
  assert (exists what, LocalStorage.checkRootDir ls = Some (Errorf what []) /\
            (what = "root dir required" \/ what = "storage client required" \/
             what = "bucketName required")) as (wl & -> & Hwl).
  { unfold LocalStorage.checkRootDir in *.
    destruct (String.eqb _ _); [eauto | congruence]. }
  assert (exists what, GCSStorage.checkClientAndBucket gs = Some (Errorf what []) /\
            (what = "root dir required" \/ what = "storage client required" \/
             what = "bucketName required")) as (wg & -> & Hwg).
  { unfold GCSStorage.checkClientAndBucket in *.
    destruct (GCSStorage.client gs); [| eauto].
    destruct (String.eqb _ _); [eauto | congruence]. }
  cbn [ret fst snd id].
  repeat split; eexists; (split; [reflexivity |]); unfold Unconfigured; eauto.
Qed.

(** * Further properties of the two backends *)

(** ** What the file calls leave behind *)

Lemma mkdir_all_keeps perm chain (m : gmap string node) k n :
  m !! k = Some n -> snd (mkdir_all perm chain m) !! k = Some n.
Proof.
  induction chain as [| p ups IH]; intros Hk; cbn; [exact Hk |].
  destruct (m !! p) as [[? ? | ?] |] eqn:Hp; try exact Hk.
  specialize (IH Hk).
  destruct (mkdir_all perm ups m) as [[e |] m']; cbn in *; [exact IH |].
  rewrite lookup_insert_ne; [exact IH |]. intros <-. congruence.
Qed.

Lemma mkdir_all_is_file perm chain (m : gmap string node) q :
  is_file (snd (mkdir_all perm chain m)) q = is_file m q.
Proof.
  induction chain as [| p ups IH]; cbn; [reflexivity |].
  destruct (m !! p) as [[? ? | ?] |] eqn:Hp; try reflexivity.
  destruct (mkdir_all perm ups m) as [[e |] m']; cbn in *; [exact IH |].
  rewrite <- IH. unfold is_file.
  destruct (decide (p = q)) as [<- | Hne].
  - rewrite lookup_insert_eq.
    destruct (m' !! p) as [[? ? | ?] |] eqn:Hp'; try reflexivity.
    exfalso. assert (is_file m' p = true) as Hf by (unfold is_file; now rewrite Hp').
    rewrite IH in Hf. unfold is_file in Hf. now rewrite Hp in Hf.
  - now rewrite lookup_insert_ne.
Qed.

Lemma os_MkdirAll_inv p perm w e w' :
  os_MkdirAll p perm w = (e, w') ->
  faults w' = faults w /\ gcs w' = gcs w /\
  log w' = log w ++ [SysMkdirAll p perm] /\
  (forall k n, fs w !! k = Some n -> fs w' !! k = Some n) /\
  (forall q, is_file (fs w') q = is_file (fs w) q) /\
  (e = None ->
   fst (mkdir_all perm (p :: Path.parents p) (fs w)) = None /\
   fs w' = snd (mkdir_all perm (p :: Path.parents p) (fs w))).
Proof.
  unfold os_MkdirAll. rewrite (bind_eq _ _ _ _ _ (call_out_eq _ _)).
  destruct (fault_of _ _).
  - intros [= <- <-]. split_and!; try reflexivity; [auto | discriminate].
  - unfold bind, get_fs, put_fs, ret.
    change (fs (tick (SysMkdirAll p perm) w)) with (fs w).
    pose proof (mkdir_all_keeps perm (p :: Path.parents p) (fs w)) as Hkeep.
    pose proof (mkdir_all_is_file perm (p :: Path.parents p) (fs w)) as Hfile.
    destruct (mkdir_all perm (p :: Path.parents p) (fs w)) as [e' m'].
    intros [= <- <-]. cbn in *. split_and!; auto.
Qed.

Lemma os_Create_inv p w f w' :
  os_Create p w = (Ok f, w') ->
  f = mkFile p /\ faults w' = faults w /\ gcs w' = gcs w /\
  log w' = log w ++ [SysCreate p] /\
  (forall perm, fs w !! p <> Some (Directory perm)) /\
  fs w' = <[p := File [] (S (clock w))]> (fs w).
Proof.
  unfold os_Create. rewrite (bind_eq _ _ _ _ _ (call_out_eq _ _)).
  destruct (fault_of _ _); [discriminate |].
  unfold bind, get_fs, get_clock, put_fs, ret.
  change (fs (tick (SysCreate p) w)) with (fs w).
  destruct (fs w !! p) as [[? ? | ?] |]; try discriminate.
  - intros [= <- <-]. split_and!; try reflexivity. discriminate.
  - destruct (os_stat (fs w) (Path.Dir p)) as [[? ? | ?] | ?]; try discriminate.
    intros [= <- <-]. split_and!; try reflexivity. discriminate.
Qed.

Lemma os_Open_inv p w f w' :
  os_Open p w = (Ok f, w') ->
  f = mkFile p /\ w' = tick (SysOpen p) w /\
  fault_of (SysOpen p) (faults w) = None /\ exists n, fs w !! p = Some n.
Proof.
  unfold os_Open. rewrite (bind_eq _ _ _ _ _ (call_out_eq _ _)).
  destruct (fault_of _ _); [discriminate |].
  unfold bind, get_fs, ret, os_stat.
  change (fs (tick (SysOpen p) w)) with (fs w).
  destruct (fs w !! p) as [n |]; [| destruct (existsb _ _); discriminate].
  intros [= <- <-]. eauto.
Qed.

Lemma os_Read_inv p w r w' :
  os_Read (mkFile p) w = (r, w') ->
  w' = tick (SysRead p) w /\
  (r_err r = None -> exists t, fs w !! p = Some (File (r_data r) t)).
Proof.
  unfold os_Read. cbn [f_path]. rewrite (bind_eq _ _ _ _ _ (call_out_eq _ _)).
  unfold bind, get_fs, ret.
  change (fs (tick (SysRead p) w)) with (fs w).
  destruct (fs w !! p) as [[data t | ?] |].
  - destruct (fault_of _ _); intros [= <- <-]; (split; [reflexivity |]); cbn;
      [discriminate | eauto].
  - intros [= <- <-]. split; [reflexivity | discriminate].
  - intros [= <- <-]. split; [reflexivity | discriminate].
Qed.

(** [io.Copy] into a file that is there: what is in the file afterwards,
    and that no error means the whole of the reader went in. *)
Lemma io_Copy_file_inv p (r : Reader) w old t0 f n e w' :
  fs w !! p = Some (File old t0) ->
  io_Copy (mkFile p) r w = (f, (n, e), w') ->
  f = mkFile p /\ faults w' = faults w /\ gcs w' = gcs w /\
  log w' = log w ++ [SysWrite p] /\
  (exists written, fs w' = <[p := File (old ++ written) (S (clock w))]> (fs w) /\
     (fault_of (SysWrite p) (faults w) = None -> written = r_data r) /\
     (forall k, fault_of (SysWrite p) (faults w) = Some k ->
        written = take k (r_data r) /\ e = Some ErrIO)) /\
  (e = None ->
     n = Z.of_nat (length (r_data r)) /\ r_err r = None /\
     fault_of (SysWrite p) (faults w) = None).
Proof.
  intros Hp. unfold io_Copy, Write, OsFile_Writer, bind.
  rewrite (os_Write_eq _ _ _ _ _ Hp). cbn.
  destruct (fault_of (SysWrite p) (faults w)) as [k |] eqn:Hf; cbn.
  - intros [= <- <- <- <-]. split_and!; try reflexivity; [| discriminate].
    eexists. split; [reflexivity |]. split; [discriminate |].
    intros k' [= <-]. split; [| reflexivity].
    destruct (Nat.le_ge_cases k (length (r_data r))) as [Hle | Hge].
    + now rewrite Nat.min_l.
    + rewrite Nat.min_r by exact Hge. now rewrite !take_ge by lia.
  - intros [= <- <- <- <-]. split_and!; try reflexivity.
    + eexists. split; [reflexivity |]. split; [| discriminate].
      intros _. now rewrite take_ge.
    + intros He. now split_and!.
Qed.

Lemma os_Remove_inv p w w' :
  os_Remove p w = (None, w') ->
  fs w' = delete p (fs w) /\ faults w' = faults w /\ gcs w' = gcs w /\
  is_Some (fs w !! p).
Proof.
  unfold os_Remove. rewrite (bind_eq _ _ _ _ _ (call_out_eq _ _)).
  destruct (fault_of _ _); [discriminate |].
  unfold bind, get_fs, put_fs, ret, os_stat.
  change (fs (tick (SysRemove p) w)) with (fs w).
  destruct (fs w !! p) as [[? ? | ?] |]; cbn.
  - intros [= <-]. auto.
  - destruct (has_children (fs w) p); [discriminate |]. intros [= <-]. auto.
  - destruct (existsb _ _); discriminate.
Qed.

Lemma os_Rename_failed src dst w e w' :
  os_Rename src dst w = (Some e, w') -> w' = tick (SysRename src dst) w.
Proof.
  unfold os_Rename. rewrite (bind_eq _ _ _ _ _ (call_out_eq _ _)).
  destruct (fault_of _ _); [now intros [= <- <-] |].
  unfold bind, get_fs, put_fs, ret.
  change (fs (tick (SysRename src dst) w)) with (fs w).
  destruct (os_stat (fs w) src) as [n | ?]; [| now intros [= <- <-]].
  destruct (String.eqb src dst); [discriminate |].
  destruct (String.eqb (Path.Dir src) src); [now intros [= <- <-] |].
  destruct (os_stat (fs w) (Path.Dir dst)) as [[? ? | ?] | ?];
    try (now intros [= <- <-]).
  destruct (rename_node src dst n (fs w)); [discriminate | now intros [= <- <-]].
Qed.

Lemma os_Rename_file_done src dst w data t w' :
  fs w !! src = Some (File data t) -> src <> dst ->
  os_Rename src dst w = (None, w') ->
  fs w' = <[dst := File data t]> (delete src (fs w)) /\
  faults w' = faults w /\ gcs w' = gcs w.
Proof.
  intros Hs Hne. unfold os_Rename. rewrite (bind_eq _ _ _ _ _ (call_out_eq _ _)).
  destruct (fault_of _ _); [discriminate |].
  unfold bind, get_fs, put_fs, ret, os_stat at 1.
  change (fs (tick (SysRename src dst) w)) with (fs w). rewrite Hs.
  apply String.eqb_neq in Hne. rewrite Hne.
  destruct (String.eqb (Path.Dir src) src); [discriminate |].
  destruct (os_stat (fs w) (Path.Dir dst)) as [[? ? | ?] | ?]; try discriminate.
  unfold rename_node.
  destruct (fs w !! dst) as [[? ? | ?] |]; try discriminate; intros [= <-]; auto.
Qed.

(** ** Local [Put], step by step *)

Lemma local_Put_inv (s : LocalStorage.t) name (r : Reader) opts w k w' :
  LocalStorage.checkRootDir s = None -> name <> "" ->
  LocalStorage.Put s name r opts w = ((k, None), w') ->
  let p := Path.Join [LocalStorage.rootDir s; name] in
  let made := mkdir_all perm_0755 (Path.Dir p :: Path.parents (Path.Dir p)) (fs w) in
  k = Z.of_nat (length (r_data r)) /\ r_err r = None /\
  faults w' = faults w /\ gcs w' = gcs w /\
  fst made = None /\
  (forall perm, snd made !! p <> Some (Directory perm)) /\
  exists t, fs w' = <[p := File (r_data r) t]> (snd made).
Proof.
  intros Hcfg Hname Hput p made. subst made.
  unfold LocalStorage.Put, LocalStorage.PathJoin in Hput.
  rewrite Hcfg, (eqb_nonempty _ Hname) in Hput. fold p in Hput. clearbody p.
  unfold bind in Hput.
  destruct (os_MkdirAll _ _ w) as [[e |] w1] eqn:H1; [discriminate |].
  apply os_MkdirAll_inv in H1 as (Hf1 & Hg1 & _ & _ & _ & Hmade).
  destruct (Hmade eq_refl) as [Hok Hfs1].
  destruct (os_Create p w1) as [[f | e] w2] eqn:H2; [| discriminate].
  apply os_Create_inv in H2 as (-> & Hf2 & Hg2 & _ & Hnodir & Hfs2).
  destruct (io_Copy (mkFile p) r w2) as [[f [n e]] w3] eqn:H3.
  eapply io_Copy_file_inv in H3 as (-> & Hf3 & Hg3 & _ & (wr & Hfs3 & Hall & _) & Hdone);
    [| rewrite Hfs2; apply lookup_insert_eq].
  unfold os_Close, bind, call_out, ret in Hput. cbn in Hput.
  destruct e as [e |]; [discriminate |]. injection Hput as <- <-.
  destruct (Hdone eq_refl) as (-> & Hr & Hnofault). rewrite (Hall Hnofault) in Hfs3.
  split_and!; [reflexivity | exact Hr | cbn; congruence | cbn; congruence | exact Hok | |].
  - intros perm. rewrite <- Hfs1. apply Hnodir.
  - eexists. cbn. rewrite Hfs3, Hfs2, Hfs1. cbn. now rewrite insert_insert_eq.
Qed.

Lemma existsb_is_file_false (m : gmap string node) (l : list string) :
  (forall q, q ∈ l -> is_file m q = false) -> existsb (is_file m) l = false.
Proof.
  intros H. destruct (existsb _ _) eqn:He; [| reflexivity].
  apply existsb_exists in He as (q & Hin & Hq).
  apply list_elem_of_In in Hin. rewrite (H q Hin) in Hq. discriminate.
Qed.

Lemma local_Get_missing (s : LocalStorage.t) name w :
  LocalStorage.checkRootDir s = None -> name <> "" ->
  let p := Path.Join [LocalStorage.rootDir s; name] in
  fault_of (SysOpen p) (faults w) = None ->
  fs w !! p = None ->
  (forall q, q ∈ Path.parents p -> is_file (fs w) q = false) ->
  LocalStorage.Get s name w =
    ((None, Some (Wrapf "failed to open file %q: %w" [p] ErrNotExist)),
     tick (SysOpen p) w).
Proof.
  intros Hcfg Hname p Hc Hp Hfree. unfold LocalStorage.Get, LocalStorage.PathJoin.
  rewrite Hcfg, (eqb_nonempty _ Hname). fold p. clearbody p.
  unfold os_Open. unfold bind at 1. rewrite (bind_eq _ _ _ _ _ (call_out_eq _ _)), Hc.
  unfold bind, get_fs, ret, os_stat.
  change (fs (tick (SysOpen p) w)) with (fs w).
  now rewrite Hp, (existsb_is_file_false _ _ Hfree).
Qed.

Lemma local_Delete_inv (s : LocalStorage.t) name w w' :
  LocalStorage.checkRootDir s = None -> name <> "" ->
  LocalStorage.Delete s name w = (None, w') ->
  let p := Path.Join [LocalStorage.rootDir s; name] in
  fs w' = delete p (fs w) /\ faults w' = faults w /\ gcs w' = gcs w /\
  is_Some (fs w !! p).
Proof.
  intros Hcfg Hname Hdel p.
  unfold LocalStorage.Delete, LocalStorage.PathJoin in Hdel.
  rewrite Hcfg, (eqb_nonempty _ Hname) in Hdel. fold p in Hdel. clearbody p.
  unfold bind in Hdel.
  destruct (os_Remove p w) as [[e |] w1] eqn:H1; [discriminate |].
  injection Hdel as <-. now apply os_Remove_inv.
Qed.

Lemma os_Create_frame p w r w' :
  os_Create p w = (r, w') ->
  forall q, q <> p -> fs w' !! q = fs w !! q.
Proof.
  unfold os_Create. rewrite (bind_eq _ _ _ _ _ (call_out_eq _ _)).
  destruct (fault_of _ _); [now intros [= <- <-] |].
  unfold bind, get_fs, get_clock, put_fs, ret.
  change (fs (tick (SysCreate p) w)) with (fs w).
  destruct (fs w !! p) as [[? ? | ?] |].
  - intros [= <- <-] q Hq. cbn. now rewrite lookup_insert_ne.
  - now intros [= <- <-].
  - destruct (os_stat (fs w) (Path.Dir p)) as [[? ? | ?] | ?];
      try (now intros [= <- <-]).
    intros [= <- <-] q Hq. cbn. now rewrite lookup_insert_ne.
Qed.

Lemma os_Write_frame f data w r w' :
  os_Write f data w = (r, w') ->
  forall q, q <> f_path f -> fs w' !! q = fs w !! q.
Proof.
  unfold os_Write. rewrite (bind_eq _ _ _ _ _ (call_out_eq _ _)).
  unfold bind, get_fs, get_clock, put_fs, ret.
  change (fs (tick (SysWrite (f_path f)) w)) with (fs w).
  destruct (fs w !! f_path f) as [[? ? | ?] |]; try (now intros [= <- <-]).
  intros [= <- <-] q Hq. cbn. now rewrite lookup_insert_ne.
Qed.

Lemma os_Create_file_eq p w old t0 :
  fault_of (SysCreate p) (faults w) = None ->
  fs w !! p = Some (File old t0) ->
  os_Create p w =
    (Ok (mkFile p), set_fs (<[p := File [] (S (clock w))]> (fs w)) (tick (SysCreate p) w)).
Proof.
  intros Hc Hp. unfold os_Create.
  rewrite (bind_eq _ _ _ _ _ (call_out_eq _ _)), Hc.
  unfold bind, get_fs, get_clock, put_fs, ret.
  change (fs (tick (SysCreate p) w)) with (fs w). now rewrite Hp.
Qed.

(** ** Local [Copy], step by step *)

Lemma local_Copy_inv (s : LocalStorage.t) src dst w w' b t :
  LocalStorage.checkRootDir s = None -> src <> "" -> dst <> "" ->
  let sp := Path.Join [LocalStorage.rootDir s; src] in
  let dp := Path.Join [LocalStorage.rootDir s; dst] in
  let made := mkdir_all perm_0755 (Path.Dir dp :: Path.parents (Path.Dir dp)) (fs w) in
  fs w !! sp = Some (File b t) ->
  LocalStorage.Copy s src dst w = (None, w') ->
  faults w' = faults w /\ gcs w' = gcs w /\ fst made = None /\
  exists t', fs w' = <[dp := File (if decide (sp = dp) then [] else b) t']> (snd made).
Proof.
  intros Hcfg Hsrc Hdst sp dp made Hb Hcopy. subst made.
  unfold LocalStorage.Copy in Hcopy.
  rewrite Hcfg, (eqb_nonempty _ Hsrc), (eqb_nonempty _ Hdst) in Hcopy.
  fold sp dp in Hcopy. clearbody sp dp. unfold bind in Hcopy.
  destruct (os_Open sp w) as [[f | e] w0] eqn:H0; [| discriminate].
  apply os_Open_inv in H0 as (-> & -> & _ & _).
  destruct (os_MkdirAll _ _ _) as [[e |] w1] eqn:H1; [discriminate |].
  apply os_MkdirAll_inv in H1 as (Hf1 & Hg1 & _ & Hkeep & _ & Hmade).
  destruct (Hmade eq_refl) as [Hok Hfs1]. cbn in Hfs1, Hok, Hf1, Hg1.
  destruct (os_Create dp w1) as [[f | e] w2] eqn:H2; [| discriminate].
  apply os_Create_inv in H2 as (-> & Hf2 & Hg2 & _ & _ & Hfs2).
  destruct (os_Read (mkFile sp) w2) as [r w3] eqn:H3.
  apply os_Read_inv in H3 as (-> & Hread).
  destruct (io_Copy (mkFile dp) r _) as [[f [n e]] w4] eqn:H4.
  eapply io_Copy_file_inv in H4 as (-> & Hf4 & Hg4 & _ & (wr & Hfs4 & Hall & _) & Hdone);
    [| cbn; rewrite Hfs2; apply lookup_insert_eq].
  unfold os_Close, call_out, ret in Hcopy. cbn in Hcopy.
  destruct e as [e |]; [discriminate |]. injection Hcopy as <-.
  destruct (Hdone eq_refl) as (_ & Hr & Hnofault). rewrite (Hall Hnofault) in Hfs4.
  destruct (Hread Hr) as [tr Hsrcnow]. cbn in Hf4, Hg4, Hfs4 |- *.
  split_and!; [congruence | congruence | exact Hok |].
  eexists. rewrite Hfs4, Hfs2, insert_insert_eq, Hfs1. cbn.
  rewrite Hfs2 in Hsrcnow. case_decide as Heq.
  - subst dp. rewrite lookup_insert_eq in Hsrcnow. injection Hsrcnow as <- _.
    reflexivity.
  - rewrite lookup_insert_ne in Hsrcnow by congruence.
    rewrite (Hkeep _ _ Hb) in Hsrcnow. injection Hsrcnow as <- _. reflexivity.
Qed.

(** ** Calls that only read *)

Lemma os_Open_world p w : snd (os_Open p w) = tick (SysOpen p) w.
Proof.
  unfold os_Open. rewrite (bind_eq _ _ _ _ _ (call_out_eq _ _)).
  destruct (fault_of _ _); [reflexivity |].
  unfold bind, get_fs, ret. now destruct (os_stat _ _).
Qed.

Lemma os_ReadDir_world p w : snd (os_ReadDir p w) = tick (SysReadDir p) w.
Proof.
  unfold os_ReadDir. rewrite (bind_eq _ _ _ _ _ (call_out_eq _ _)).
  destruct (fault_of _ _); [reflexivity |].
  unfold bind, get_fs, ret. now destruct (os_stat _ _) as [[? ? | ?] | ?].
Qed.

Lemma gcs_NewReader_world b n w : snd (gcs_NewReader b n w) = tick (GcsNewReader b n) w.
Proof.
  unfold gcs_NewReader. rewrite (bind_eq _ _ _ _ _ (call_out_eq _ _)).
  destruct (fault_of _ _); [reflexivity |].
  unfold bind, get_gcs, ret. now destruct (_ !! _).
Qed.

Lemma it_Next_world b p (it : Iterator) w : snd (it_Next b p it w) = tick (GcsNext b p) w.
Proof.
  unfold it_Next. rewrite (bind_eq _ _ _ _ _ (call_out_eq _ _)).
  destruct (fault_of _ _); [reflexivity |]. now destruct it.
Qed.

Lemma local_List_loop_frame (s : LocalStorage.t) (prefix : string) (files : list DirEntry) :
  forall objects w,
    fs (snd (LocalStorage.List_loop s prefix files objects w)) = fs w /\
    gcs (snd (LocalStorage.List_loop s prefix files objects w)) = gcs w.
Proof.
  induction files as [| file files IH]; intros objects w; cbn [LocalStorage.List_loop].
  - split; reflexivity.
  - destruct (de_IsDir file); [apply IH |].
    rewrite (bind_eq _ _ _ _ _ (de_Info_eq _ _)).
    destruct (info_of _ _ _);
      match goal with |- context [LocalStorage.List_loop _ _ _ ?o ?w1] =>
        destruct (IH o w1) as [-> ->] end; split; reflexivity.
Qed.

Lemma cloud_List_loop_frame (s : GCSStorage.t) (prefix : string) (it : Iterator) :
  forall objects w,
    fs (snd (GCSStorage.List_loop s prefix it objects w)) = fs w /\
    gcs (snd (GCSStorage.List_loop s prefix it objects w)) = gcs w.
Proof.
  induction it as [| a it IH]; intros objects w; cbn [GCSStorage.List_loop];
    unfold bind; pose proof (it_Next_world (GCSStorage.bucketName s) prefix) as Hw.
  - specialize (Hw [] w). destruct (it_Next _ _ _ w) as [[attrs [e |]] w1];
      cbn in Hw; subst w1; [destruct (is_Done e) | destruct attrs]; split; reflexivity.
  - specialize (Hw (a :: it) w). destruct (it_Next _ _ _ w) as [[attrs [e |]] w1];
      cbn in Hw; subst w1; [destruct (is_Done e); split; reflexivity |].
    destruct attrs; [| split; reflexivity].
    match goal with |- context [GCSStorage.List_loop _ _ _ ?o ?w1] =>
      destruct (IH o w1) as [-> ->] end; split; reflexivity.
Qed.


(** ** The store calls, step by step *)

Lemma gcs_Copy_inv b src dst w w' :
  gcs_Copy b src dst w = (None, w') ->
  faults w' = faults w /\ fs w' = fs w /\
  exists o, gcs w !! (b, src) = Some o /\
    gcs w' = <[(b, dst) := mkObject (o_data o) (o_ctype o) (o_meta o) (S (clock w))]> (gcs w).
Proof.
  unfold gcs_Copy. rewrite (bind_eq _ _ _ _ _ (call_out_eq _ _)).
  destruct (fault_of _ _); [discriminate |].
  unfold bind, get_gcs, get_clock, put_gcs, ret.
  change (gcs (tick (GcsCopy b src dst) w)) with (gcs w).
  destruct (gcs w !! (b, src)) as [o |]; [| discriminate].
  intros [= <-]. split_and!; try reflexivity. now exists o.
Qed.

Lemma gcs_Delete_inv b n w w' :
  gcs_Delete b n w = (None, w') ->
  faults w' = faults w /\ fs w' = fs w /\
  is_Some (gcs w !! (b, n)) /\ gcs w' = delete (b, n) (gcs w).
Proof.
  unfold gcs_Delete. rewrite (bind_eq _ _ _ _ _ (call_out_eq _ _)).
  destruct (fault_of _ _); [discriminate |].
  unfold bind, get_gcs, put_gcs, ret.
  change (gcs (tick (GcsDelete b n) w)) with (gcs w).
  destruct (gcs w !! (b, n)) as [o |]; [| discriminate].
  intros [= <-]. split_and!; try reflexivity. eauto.
Qed.

Lemma cloud_Copy_inv (s : GCSStorage.t) src dst w w' :
  GCSStorage.checkClientAndBucket s = None -> src <> "" -> dst <> "" ->
  GCSStorage.Copy s src dst w = (None, w') ->
  faults w' = faults w /\ fs w' = fs w /\
  exists o, gcs w !! (GCSStorage.bucketName s, src) = Some o /\
    gcs w' = <[(GCSStorage.bucketName s, dst) :=
               mkObject (o_data o) (o_ctype o) (o_meta o) (S (clock w))]> (gcs w).
Proof.
  intros Hcfg Hsrc Hdst. unfold GCSStorage.Copy.
  rewrite Hcfg, (eqb_nonempty _ Hsrc), (eqb_nonempty _ Hdst). unfold bind.
  destruct (gcs_Copy _ src dst w) as [[e |] w1] eqn:H1; [discriminate |].
  intros [= <-]. now apply gcs_Copy_inv.
Qed.

Lemma cloud_Delete_inv (s : GCSStorage.t) name w w' :
  GCSStorage.checkClientAndBucket s = None -> name <> "" ->
  GCSStorage.Delete s name w = (None, w') ->
  faults w' = faults w /\ fs w' = fs w /\
  is_Some (gcs w !! (GCSStorage.bucketName s, name)) /\
  gcs w' = delete (GCSStorage.bucketName s, name) (gcs w).
Proof.
  intros Hcfg Hname. unfold GCSStorage.Delete.
  rewrite Hcfg, (eqb_nonempty _ Hname). unfold bind.
  destruct (gcs_Delete _ name w) as [[e |] w1] eqn:H1; [discriminate |].
  intros [= <-]. now apply gcs_Delete_inv.
Qed.

Lemma cloud_Move_inv (s : GCSStorage.t) src dst w w' :
  GCSStorage.checkClientAndBucket s = None -> src <> "" -> dst <> "" ->
  GCSStorage.Move s src dst w = (None, w') ->
  exists o t,
    gcs w !! (GCSStorage.bucketName s, src) = Some o /\
    gcs w' = delete (GCSStorage.bucketName s, src)
               (<[(GCSStorage.bucketName s, dst) :=
                  mkObject (o_data o) (o_ctype o) (o_meta o) t]> (gcs w)).
Proof.
  intros Hcfg Hsrc Hdst. unfold GCSStorage.Move.
  rewrite Hcfg, (eqb_nonempty _ Hsrc), (eqb_nonempty _ Hdst). unfold bind at 1.
  destruct (GCSStorage.Copy s src dst w) as [[e |] w1] eqn:H1; [discriminate |].
  apply cloud_Copy_inv in H1 as (_ & _ & o & Ho & Hg1); try assumption.
  unfold bind.
  destruct (GCSStorage.Delete s src w1) as [[e |] w2] eqn:H2; [discriminate |].
  apply cloud_Delete_inv in H2 as (_ & _ & _ & Hg2); try assumption.
  intros [= <-]. exists o, (S (clock w)). now rewrite Hg2, Hg1.
Qed.

(** Cloud [Put] when the write and the finishing of the upload are let
    through: the object is stored whether or not the reader ended well. *)
Lemma cloud_Put_eq (s : GCSStorage.t) name (r : Reader) opts w :
  GCSStorage.checkClientAndBucket s = None -> name <> "" ->
  fault_of (GcsWrite (GCSStorage.bucketName s) name) (faults w) = None ->
  fault_of (GcsClose (GCSStorage.bucketName s) name) (faults w) = None ->
  let wr := GCSStorage.apply_opts opts (gcs_NewWriter (GCSStorage.bucketName s) name) in
  GCSStorage.Put s name r opts w =
    (match r_err r with
     | Some e =>
         (0%Z, Some (Wrapf "failed to write file %q: %w"
                           [Path.Join [GCSStorage.bucketName s; name]] e))
     | None => (Z.of_nat (length (r_data r)), None)
     end,
     set_gcs (<[(GCSStorage.bucketName s, name) :=
                mkObject (r_data r) (w_ContentType wr) (w_Metadata wr) (S (S (clock w)))]>
              (gcs w))
       (tick (GcsClose (GCSStorage.bucketName s) name)
          (tick (GcsWrite (GCSStorage.bucketName s) name) w))).
Proof.
  intros Hcfg Hname Hwrite Hclose wr. unfold GCSStorage.Put, GCSStorage.PathJoin.
  rewrite Hcfg, (eqb_nonempty _ Hname).
  destruct (apply_opts_keeps opts (gcs_NewWriter (GCSStorage.bucketName s) name))
    as (Hb & Hn & Hbuf & Hfailed).
  fold wr in Hb, Hn, Hbuf, Hfailed |- *. cbn in Hb, Hn, Hbuf, Hfailed. clearbody wr.
  unfold io_Copy, Write, Writer_Writer, gcs_Write, gcs_Close.
  unfold bind, call_out, get_gcs, get_clock, put_gcs, ret. cbn.
  rewrite Hb, Hn, Hwrite. cbn. rewrite Hclose, Hfailed, Hbuf. cbn.
  now destruct (r_err r).
Qed.


(** The loop of cloud [DeleteAll] when the delete of one of the objects
    is made to fail: it stops there with that error, and the object is
    still stored. *)
Lemma DeleteAll_loop_stops (s : GCSStorage.t) (prefix n : string) (k : nat)
  (it : Iterator) :
  forall w,
    fault_of (GcsNext (GCSStorage.bucketName s) prefix) (faults w) = None ->
    fault_of (GcsDelete (GCSStorage.bucketName s) n) (faults w) = Some k ->
    (forall n', n' <> n ->
       fault_of (GcsDelete (GCSStorage.bucketName s) n') (faults w) = None) ->
    NoDup (attrs_Name <$> it) ->
    (forall a, a ∈ it -> is_Some (gcs w !! (GCSStorage.bucketName s, attrs_Name a))) ->
    n ∈ attrs_Name <$> it ->
    exists w',
      GCSStorage.DeleteAll_loop s prefix it w =
        (Some (Wrapf "failed to delete %s: %w" [n] ErrIO), w') /\
      gcs w' !! (GCSStorage.bucketName s, n) = gcs w !! (GCSStorage.bucketName s, n).
Proof.
  induction it as [| a it IH]; intros w Hnext Hfail Hothers Hnodup Hthere Hin.
  - now apply elem_of_nil in Hin.
  - cbn [GCSStorage.DeleteAll_loop].
    rewrite (bind_eq _ _ _ _ _ (it_Next_eq _ _ _ _ Hnext)). cbn [is_Done].
    set (w1 := tick (GcsNext (GCSStorage.bucketName s) prefix) w).
    apply NoDup_cons in Hnodup as [Hfresh Hnodup].
    destruct (decide (attrs_Name a = n)) as [Heq | Hne].
    + assert (gcs_Delete (GCSStorage.bucketName s) (attrs_Name a) w1 =
                (Some ErrIO, tick (GcsDelete (GCSStorage.bucketName s) (attrs_Name a)) w1))
        as Hdel.
      { unfold gcs_Delete. rewrite (bind_eq _ _ _ _ _ (call_out_eq _ _)).
        cbn [faults w1 tick]. now rewrite Heq, Hfail. }
      rewrite (bind_eq _ _ _ _ _ Hdel). rewrite Heq. eexists. split; reflexivity.
    + destruct (Hthere a ltac:(left)) as [o Ho].
      rewrite (bind_eq _ _ _ _ _
                 (gcs_Delete_eq _ _ w1 o (Hothers _ Hne) Ho)).
      destruct (IH (set_gcs (delete (GCSStorage.bucketName s, attrs_Name a) (gcs w1))
                            (tick (GcsDelete (GCSStorage.bucketName s) (attrs_Name a)) w1)))
        as (w' & Hloop & Hkept); try assumption.
      { intros b Hb. cbn. rewrite lookup_delete_ne; [apply Hthere; now right |].
        intros Hk. apply Hfresh. injection Hk as ->.
        apply list_elem_of_fmap. now exists b. }
      { change (attrs_Name <$> a :: it) with (attrs_Name a :: (attrs_Name <$> it)) in Hin.
        apply elem_of_cons in Hin as [Hin | Hin]; [congruence | exact Hin]. }
      exists w'. split; [exact Hloop |]. rewrite Hkept. cbn.
      apply lookup_delete_ne. congruence.
Qed.

(** ** Writing on the local backend *)

Lemma local_round_trip_witness :
  exists rc,
    run (LocalStorage.Get local_data "a/b.txt")
        (exec (LocalStorage.Put local_data "a/b.txt" (bytes_Reader hello) None)
              empty_world) = (Some rc, None) /\
    run (io_ReadAll rc)
        (exec (LocalStorage.Get local_data "a/b.txt")
              (exec (LocalStorage.Put local_data "a/b.txt" (bytes_Reader hello) None)
                    empty_world)) = (hello, None).
Proof.
  exact (local_round_trip local_data "a/b.txt" hello None empty_world 5%Z
           eq_refl ltac:(discriminate) eq_refl eq_refl eq_refl).
Defined.

(** X2: A local [Put] that returns no error has made the directory of the
    file, with mode 0755, when that directory was not there. *)
Theorem local_Put_makes_missing_directory
  (s : LocalStorage.t) (name : string) (r : Reader) (opts : option PutOptions.t)
  (w : world) (k : Z)
  (Hcfg : LocalStorage.checkRootDir s = None)
  (Hname : name <> "")
  (Hnew : fs w !! Path.Dir (Path.Join [LocalStorage.rootDir s; name]) = None)
  (Hput : run (LocalStorage.Put s name r opts) w = (k, None)) :
  fs (exec (LocalStorage.Put s name r opts) w)
    !! Path.Dir (Path.Join [LocalStorage.rootDir s; name])
  = Some (Directory perm_0755).
Proof.
  unfold run, exec in *.
  destruct (LocalStorage.Put s name r opts w) as [[k' e] w'] eqn:Hrun.
  cbn [fst snd] in Hput |- *. injection Hput as -> ->.
  destruct (local_Put_inv s name r opts w k w' Hcfg Hname Hrun)
    as (_ & _ & _ & _ & Hok & Hnodir & t & ->).
  pose proof (mkdir_all_new _ _ _ _ Hok Hnew) as Hdir.
  set (made := snd (mkdir_all _ _ _)) in *. clearbody made.
  rewrite lookup_insert_ne; [exact Hdir |].
  intros Heq. apply (Hnodir perm_0755). rewrite Heq. exact Hdir.
Qed.

Lemma local_Put_makes_missing_directory_witness :
  fs (exec (LocalStorage.Put local_data "a/b.txt" (bytes_Reader hello) None) empty_world)
    !! "/data/a" = Some (Directory perm_0755).
Proof.
  exact (local_Put_makes_missing_directory local_data "a/b.txt" (bytes_Reader hello)
           None empty_world 5%Z eq_refl ltac:(discriminate) eq_refl eq_refl).
Defined.

(** X3: Local [Put], whatever it returns, leaves every entry that was in the
    file system at another path than its own as it was. *)
Theorem local_Put_keeps_other_entries
  (s : LocalStorage.t) (name : string) (r : Reader) (opts : option PutOptions.t)
  (w : world) (q : string) (n : node) :
  q <> Path.Join [LocalStorage.rootDir s; name] ->
  fs w !! q = Some n ->
  fs (exec (LocalStorage.Put s name r opts) w) !! q = Some n.
Proof.
  intros Hq Hn. unfold exec, LocalStorage.Put, LocalStorage.PathJoin.
  destruct (LocalStorage.checkRootDir s); [exact Hn |].
  destruct (String.eqb name ""); [exact Hn |].
  set (p := Path.Join [LocalStorage.rootDir s; name]) in *. clearbody p.
  unfold bind.
  destruct (os_MkdirAll _ _ w) as [e w1] eqn:H1.
  apply os_MkdirAll_inv in H1 as (_ & _ & _ & Hkeep & _).
  specialize (Hkeep _ _ Hn).
  destruct e; [exact Hkeep |].
  destruct (os_Create p w1) as [[f | e] w2] eqn:H2.
  - pose proof (os_Create_frame _ _ _ _ H2 q Hq) as Hf2.
    apply os_Create_inv in H2 as (-> & _).
    unfold io_Copy, Write, OsFile_Writer, bind.
    destruct (os_Write (mkFile p) (r_data r) w2) as [[f [cnt e]] w3] eqn:H3.
    pose proof (os_Write_frame _ _ _ _ _ H3 q Hq) as Hf3.
    assert (f = mkFile p) as ->.
    { revert H3. unfold os_Write, bind, call_out, get_fs, get_clock, put_fs, ret. cbn.
      destruct (_ !! p) as [[? ? | ?] |]; now intros [= <- _ _ _]. }
    unfold os_Close, bind, call_out, ret.
    destruct e; [| destruct (r_err r)]; cbn; congruence.
  - pose proof (os_Create_frame _ _ _ _ H2 q Hq) as Hf2. cbn. congruence.
Qed.

Lemma local_Put_keeps_other_entries_witness :
  let w := exec (LocalStorage.Put local_data "a/b.txt" (bytes_Reader hello) None)
             empty_world in
  fs (exec (LocalStorage.Put local_data "a/c.txt" (bytes_Reader []) None) w)
    !! "/data/a/b.txt" = Some (File hello 3).
Proof.
  intros w.
  apply (local_Put_keeps_other_entries local_data "a/c.txt" (bytes_Reader []) None w);
    [discriminate | reflexivity].
Defined.

(** X4: On both backends, whenever [Put] returns an error the byte count it
    returns is zero, whatever part of the data had been written. *)
Theorem Put_error_returns_zero
  (ls : LocalStorage.t) (gs : GCSStorage.t) (name : string) (r : Reader)
  (opts : option PutOptions.t) (w : world) :
  (snd (run (LocalStorage.Put ls name r opts) w) <> None ->
   fst (run (LocalStorage.Put ls name r opts) w) = 0%Z) /\
  (snd (run (GCSStorage.Put gs name r opts) w) <> None ->
   fst (run (GCSStorage.Put gs name r opts) w) = 0%Z).
Proof.
  split; [apply local_Put_error_zero | apply cloud_Put_error_zero].
Qed.

Lemma Put_error_returns_zero_witness :
  let w := set_faults [(SysWrite "/data/a/b.txt", 2)] empty_world in
  fst (run (LocalStorage.Put local_data "a/b.txt" (bytes_Reader hello) None) w) = 0%Z.
Proof.
  intros w.
  apply (proj1 (Put_error_returns_zero local_data cloud_bkt "a/b.txt"
                  (bytes_Reader hello) None w)).
  vm_compute. discriminate.
Defined.

(** X5: A write that fails while local [Put] overwrites a file: [Put] returns
    zero and the write error, what the file held before is gone, and the
    file holds the bytes that went through before the failure. *)
Theorem local_Put_failed_overwrite_truncates
  (s : LocalStorage.t) (name : string) (r : Reader) (opts : option PutOptions.t)
  (w : world) (old : list Byte.byte) (t0 : nat) (perm : N) (k : nat)
  (Hcfg : LocalStorage.checkRootDir s = None)
  (Hname : name <> "")
  (Hfile : fs w !! Path.Join [LocalStorage.rootDir s; name] = Some (File old t0))
  (Hdir : fs w !! Path.Dir (Path.Join [LocalStorage.rootDir s; name])
          = Some (Directory perm))
  (Hmkdir : fault_of (SysMkdirAll (Path.Dir (Path.Join [LocalStorage.rootDir s; name]))
                                  perm_0755) (faults w) = None)
  (Hcreate : fault_of (SysCreate (Path.Join [LocalStorage.rootDir s; name]))
                      (faults w) = None)
  (Hwrite : fault_of (SysWrite (Path.Join [LocalStorage.rootDir s; name]))
                     (faults w) = Some k) :
  let p := Path.Join [LocalStorage.rootDir s; name] in
  run (LocalStorage.Put s name r opts) w =
    (0%Z, Some (Wrapf "failed to write file %q: %w" [p] ErrIO)) /\
  exists t, fs (exec (LocalStorage.Put s name r opts) w) !! p
            = Some (File (take k (r_data r)) t).
Proof.
  intros p. fold p in Hfile, Hdir, Hmkdir, Hcreate, Hwrite.
  unfold run, exec, LocalStorage.Put, LocalStorage.PathJoin.
  rewrite Hcfg, (eqb_nonempty _ Hname). fold p. clearbody p.
  rewrite (bind_eq _ _ _ _ _ (os_MkdirAll_eq _ _ _ Hmkdir)).
  cbn [mkdir_all]. rewrite Hdir. cbn [fst snd].
  rewrite (bind_eq _ _ _ _ _
             (os_Create_file_eq p (set_fs (fs w) (tick _ w)) old t0 Hcreate Hfile)).
  unfold bind.
  destruct (io_Copy (mkFile p) r _) as [[f [n e]] w3] eqn:H3.
  eapply io_Copy_file_inv in H3 as (-> & _ & _ & _ & (wr & Hfs3 & _ & Hfail) & _);
    [| cbn; apply lookup_insert_eq].
  destruct (Hfail k Hwrite) as [-> ->].
  unfold os_Close, bind, call_out, ret. cbn.
  split; [reflexivity |]. rewrite Hfs3. cbn. rewrite lookup_insert_eq. eauto.
Qed.

Lemma local_Put_failed_overwrite_witness :
  let w := set_faults [(SysWrite "/data/a/b.txt", 2)]
             (exec (LocalStorage.Put local_data "a/b.txt" (bytes_Reader hello) None)
                   empty_world) in
  run (LocalStorage.Put local_data "a/b.txt" (bytes_Reader hello) None) w =
    (0%Z, Some (Wrapf "failed to write file %q: %w" ["/data/a/b.txt"] ErrIO)) /\
  exists t, fs (exec (LocalStorage.Put local_data "a/b.txt" (bytes_Reader hello) None) w)
              !! "/data/a/b.txt" = Some (File (take 2 hello) t).
Proof.
  intros w.
  exact (local_Put_failed_overwrite_truncates local_data "a/b.txt" (bytes_Reader hello)
           None w hello 3 perm_0755 2 eq_refl ltac:(discriminate)
           eq_refl eq_refl eq_refl eq_refl eq_refl).
Defined.

(** ** Reading and deleting on the local backend *)

(** X6: Local [Get] of a name at which nothing is stored returns no stream
    and an error that wraps the not-exist error of the open call, with
    the full path; the file system is as it was. *)
Theorem local_Get_of_missing_object
  (s : LocalStorage.t) (name : string) (w : world)
  (Hcfg : LocalStorage.checkRootDir s = None)
  (Hname : name <> "")
  (Hcall : fault_of (SysOpen (Path.Join [LocalStorage.rootDir s; name])) (faults w) = None)
  (Hmissing : fs w !! Path.Join [LocalStorage.rootDir s; name] = None)
  (Hfree : forall q, q ∈ Path.parents (Path.Join [LocalStorage.rootDir s; name]) ->
                     is_file (fs w) q = false) :
  let p := Path.Join [LocalStorage.rootDir s; name] in
  run (LocalStorage.Get s name) w =
    (None, Some (Wrapf "failed to open file %q: %w" [p] ErrNotExist)) /\
  fs (exec (LocalStorage.Get s name) w) = fs w.
Proof.
  intros p. unfold run, exec.
  now rewrite (local_Get_missing s name w Hcfg Hname Hcall Hmissing Hfree).
Qed.

Lemma local_Get_of_missing_object_witness :
  run (LocalStorage.Get local_data "a/b.txt") empty_world =
    (None, Some (Wrapf "failed to open file %q: %w" ["/data/a/b.txt"] ErrNotExist)) /\
  fs (exec (LocalStorage.Get local_data "a/b.txt") empty_world) = fs empty_world.
Proof.
  exact (local_Get_of_missing_object local_data "a/b.txt" empty_world
           eq_refl ltac:(discriminate) eq_refl eq_refl (fun q _ => eq_refl)).
Defined.

(** X7: After a local [Put] that returned no error, [Delete] of the same name
    returns no error, and the [Get] that follows fails with the not-exist
    error. *)
Theorem local_Put_Delete_Get
  (s : LocalStorage.t) (name : string) (r : Reader) (opts : option PutOptions.t)
  (w : world) (k : Z)
  (Hcfg : LocalStorage.checkRootDir s = None)
  (Hname : name <> "")
  (Hremove : fault_of (SysRemove (Path.Join [LocalStorage.rootDir s; name]))
                      (faults w) = None)
  (Hopen : fault_of (SysOpen (Path.Join [LocalStorage.rootDir s; name]))
                    (faults w) = None)
  (Hfree : forall q, q ∈ Path.parents (Path.Join [LocalStorage.rootDir s; name]) ->
                     is_file (fs w) q = false)
  (Hput : run (LocalStorage.Put s name r opts) w = (k, None)) :
  let p := Path.Join [LocalStorage.rootDir s; name] in
  let w1 := exec (LocalStorage.Put s name r opts) w in
  let w2 := exec (LocalStorage.Delete s name) w1 in
  run (LocalStorage.Delete s name) w1 = None /\
  run (LocalStorage.Get s name) w2 =
    (None, Some (Wrapf "failed to open file %q: %w" [p] ErrNotExist)).
Proof.
  intros p w1 w2. subst w2 w1. unfold run, exec in *.
  destruct (LocalStorage.Put s name r opts w) as [[k' e] w1] eqn:Hrun.
  cbn [fst snd] in Hput |- *. injection Hput as -> ->.
  destruct (local_Put_inv s name r opts w k w1 Hcfg Hname Hrun)
    as (_ & _ & Hf1 & _ & _ & _ & t & Hfs1).
  fold p in Hfs1, Hremove, Hopen, Hfree.
  set (made := snd (mkdir_all _ _ _)) in Hfs1.
  assert (forall q, is_file made q = is_file (fs w) q) as Hmade
    by (intros q; apply mkdir_all_is_file).
  clearbody made.
  assert (LocalStorage.Delete s name w1 =
            (None, set_fs (delete p (fs w1)) (tick (SysRemove p) w1))) as Hdel.
  { unfold LocalStorage.Delete, LocalStorage.PathJoin.
    rewrite Hcfg, (eqb_nonempty _ Hname). fold p.
    unfold os_Remove. unfold bind at 1.
    rewrite (bind_eq _ _ _ _ _ (call_out_eq _ _)), Hf1, Hremove.
    unfold bind, get_fs, put_fs, ret, os_stat.
    change (fs (tick (SysRemove p) w1)) with (fs w1).
    now rewrite Hfs1, lookup_insert_eq. }
  rewrite Hdel. cbn [fst snd]. split; [reflexivity |].
  rewrite (local_Get_missing s name _ Hcfg Hname); [reflexivity | | |].
  - cbn. now rewrite Hf1.
  - cbn. apply lookup_delete_eq.
  - intros q Hq. cbn. rewrite Hfs1. unfold is_file.
    destruct (decide (q = p)) as [-> | Hne]; [now rewrite lookup_delete_eq |].
    assert (p <> q) as Hne' by congruence.
    rewrite lookup_delete_ne by exact Hne'. rewrite lookup_insert_ne by exact Hne'.
    specialize (Hfree q Hq). rewrite <- Hmade in Hfree. exact Hfree.
Qed.

Lemma local_Put_Delete_Get_witness :
  let w1 := exec (LocalStorage.Put local_data "a/b.txt" (bytes_Reader hello) None)
              empty_world in
  run (LocalStorage.Delete local_data "a/b.txt") w1 = None /\
  run (LocalStorage.Get local_data "a/b.txt")
      (exec (LocalStorage.Delete local_data "a/b.txt") w1) =
    (None, Some (Wrapf "failed to open file %q: %w" ["/data/a/b.txt"] ErrNotExist)).
Proof.
  exact (local_Put_Delete_Get local_data "a/b.txt" (bytes_Reader hello) None
           empty_world 5%Z eq_refl ltac:(discriminate) eq_refl eq_refl
           (fun q _ => eq_refl) eq_refl).
Defined.

(** ** Copying and moving on the local backend *)

(** X8: A local [Copy] that returns no error, between two different paths:
    the destination holds the bytes of the source, and the source is
    still there, as it was. *)
Theorem local_Copy_copies_and_keeps_source
  (s : LocalStorage.t) (src dst : string) (w : world) (b : list Byte.byte) (t : nat)
  (Hcfg : LocalStorage.checkRootDir s = None)
  (Hsrc : src <> "") (Hdst : dst <> "")
  (Hne : Path.Join [LocalStorage.rootDir s; src] <> Path.Join [LocalStorage.rootDir s; dst])
  (Hfile : fs w !! Path.Join [LocalStorage.rootDir s; src] = Some (File b t))
  (Hcopy : run (LocalStorage.Copy s src dst) w = None) :
  let w' := exec (LocalStorage.Copy s src dst) w in
  (exists t', fs w' !! Path.Join [LocalStorage.rootDir s; dst] = Some (File b t')) /\
  fs w' !! Path.Join [LocalStorage.rootDir s; src] = Some (File b t).
Proof.
  intros w'. subst w'. unfold run, exec in *.
  destruct (LocalStorage.Copy s src dst w) as [e w'] eqn:Hrun. cbn [fst snd] in Hcopy |- *. subst e.
  destruct (local_Copy_inv s src dst w w' b t Hcfg Hsrc Hdst Hfile Hrun)
    as (_ & _ & _ & t' & ->).
  rewrite decide_False by exact Hne. split.
  - exists t'. apply lookup_insert_eq.
  - rewrite lookup_insert_ne by (intros Hx; now symmetry in Hx).
    now apply mkdir_all_keeps.
Qed.

Lemma local_Copy_copies_witness :
  let w := exec (LocalStorage.Put local_data "a/b.txt" (bytes_Reader hello) None)
             empty_world in
  let w' := exec (LocalStorage.Copy local_data "a/b.txt" "c/d.txt") w in
  (exists t', fs w' !! "/data/c/d.txt" = Some (File hello t')) /\
  fs w' !! "/data/a/b.txt" = Some (File hello 3).
Proof.
  intros w.
  exact (local_Copy_copies_and_keeps_source local_data "a/b.txt" "c/d.txt" w hello 3
           eq_refl ltac:(discriminate) ltac:(discriminate) ltac:(discriminate)
           eq_refl eq_refl).
Defined.

(** X9: A local [Copy] whose source and destination are the same path
    returns no error only with the file left empty: the destination is
    truncated before the source is read. *)
Theorem local_Copy_onto_itself_empties
  (s : LocalStorage.t) (src dst : string) (w : world) (b : list Byte.byte) (t : nat)
  (Hcfg : LocalStorage.checkRootDir s = None)
  (Hsrc : src <> "") (Hdst : dst <> "")
  (Hsame : Path.Join [LocalStorage.rootDir s; src] = Path.Join [LocalStorage.rootDir s; dst])
  (Hfile : fs w !! Path.Join [LocalStorage.rootDir s; src] = Some (File b t))
  (Hcopy : run (LocalStorage.Copy s src dst) w = None) :
  exists t', fs (exec (LocalStorage.Copy s src dst) w)
               !! Path.Join [LocalStorage.rootDir s; src] = Some (File [] t').
Proof.
  unfold run, exec in *.
  destruct (LocalStorage.Copy s src dst w) as [e w'] eqn:Hrun. cbn [fst snd] in Hcopy |- *. subst e.
  destruct (local_Copy_inv s src dst w w' b t Hcfg Hsrc Hdst Hfile Hrun)
    as (_ & _ & _ & t' & ->).
  rewrite decide_True by exact Hsame. exists t'. rewrite Hsame. apply lookup_insert_eq.
Qed.

Lemma local_Copy_onto_itself_witness :
  let w := exec (LocalStorage.Put local_data "a/b.txt" (bytes_Reader hello) None)
             empty_world in
  exists t', fs (exec (LocalStorage.Copy local_data "a/b.txt" "a/./b.txt") w)
               !! "/data/a/b.txt" = Some (File [] t').
Proof.
  intros w.
  exact (local_Copy_onto_itself_empties local_data "a/b.txt" "a/./b.txt" w hello 3
           eq_refl ltac:(discriminate) ltac:(discriminate) eq_refl eq_refl eq_refl).
Defined.

(** X10: Local [Copy] from a name at which nothing is stored returns the error
    of opening the source and leaves the file system as it was: nothing
    is made for the destination, the only call is the open. *)
Theorem local_Copy_of_missing_source
  (s : LocalStorage.t) (src dst : string) (w : world)
  (Hcfg : LocalStorage.checkRootDir s = None)
  (Hsrc : src <> "") (Hdst : dst <> "")
  (Hmissing : fs w !! Path.Join [LocalStorage.rootDir s; src] = None) :
  let sp := Path.Join [LocalStorage.rootDir s; src] in
  let w' := exec (LocalStorage.Copy s src dst) w in
  (exists e, run (LocalStorage.Copy s src dst) w =
               Some (Wrapf "failed to open src file %q: %w" [sp] e)) /\
  fs w' = fs w /\ log w' = log w ++ [SysOpen sp].
Proof.
  intros sp w'. subst w'. unfold run, exec, LocalStorage.Copy.
  rewrite Hcfg, (eqb_nonempty _ Hsrc), (eqb_nonempty _ Hdst). fold sp.
  destruct (os_Open_missing sp w Hmissing) as [e He].
  rewrite (bind_eq _ _ _ _ _ He). cbn. eauto.
Qed.

Lemma local_Copy_of_missing_source_witness :
  let w' := exec (LocalStorage.Copy local_data "x.txt" "c/d.txt") empty_world in
  (exists e, run (LocalStorage.Copy local_data "x.txt" "c/d.txt") empty_world =
               Some (Wrapf "failed to open src file %q: %w" ["/data/x.txt"] e)) /\
  fs w' = fs empty_world /\ log w' = log empty_world ++ [SysOpen "/data/x.txt"].
Proof.
  exact (local_Copy_of_missing_source local_data "x.txt" "c/d.txt" empty_world
           eq_refl ltac:(discriminate) ltac:(discriminate) eq_refl).
Defined.

(** X11: A local [Move] that returns no error, between two different paths,
    whether it went by the rename or by copy and delete: the destination
    holds the bytes the source held, and nothing is left at the
    source. *)
Theorem local_Move_moves
  (s : LocalStorage.t) (src dst : string) (w : world) (b : list Byte.byte) (t : nat)
  (Hcfg : LocalStorage.checkRootDir s = None)
  (Hsrc : src <> "") (Hdst : dst <> "")
  (Hne : Path.Join [LocalStorage.rootDir s; src] <> Path.Join [LocalStorage.rootDir s; dst])
  (Hfile : fs w !! Path.Join [LocalStorage.rootDir s; src] = Some (File b t))
  (Hmove : run (LocalStorage.Move s src dst) w = None) :
  let w' := exec (LocalStorage.Move s src dst) w in
  (exists t', fs w' !! Path.Join [LocalStorage.rootDir s; dst] = Some (File b t')) /\
  fs w' !! Path.Join [LocalStorage.rootDir s; src] = None.
Proof.
  intros w'. subst w'. unfold run, exec in *.
  destruct (LocalStorage.Move s src dst w) as [e w'] eqn:Hrun. cbn [fst snd] in Hmove |- *. subst e.
  unfold LocalStorage.Move in Hrun.
  rewrite Hcfg, (eqb_nonempty _ Hsrc), (eqb_nonempty _ Hdst) in Hrun.
  set (sp := Path.Join [LocalStorage.rootDir s; src]) in *.
  set (dp := Path.Join [LocalStorage.rootDir s; dst]) in *.
  unfold bind at 1 in Hrun.
  destruct (os_MkdirAll _ _ w) as [[e |] w1] eqn:H1; [discriminate |].
  apply os_MkdirAll_inv in H1 as (_ & _ & _ & Hkeep & _).
  specialize (Hkeep _ _ Hfile).
  unfold bind at 1 in Hrun.
  destruct (os_Rename sp dp w1) as [[e |] w2] eqn:H2.
  - apply os_Rename_failed in H2 as ->.
    unfold bind at 1 in Hrun.
    destruct (LocalStorage.Copy s src dst _) as [[e' |] w3] eqn:H3; [discriminate |].
    destruct (local_Copy_inv s src dst (tick (SysRename sp dp) w1) w3 b t
                Hcfg Hsrc Hdst Hkeep H3)
      as (_ & _ & _ & t' & Hfs3).
    fold sp dp in Hfs3. rewrite decide_False in Hfs3 by exact Hne.
    unfold bind in Hrun.
    destruct (LocalStorage.Delete s src w3) as [[e' |] w4] eqn:H4; [discriminate |].
    injection Hrun as <-.
    destruct (local_Delete_inv s src w3 w4 Hcfg Hsrc H4) as (-> & _).
    fold sp. rewrite Hfs3. split.
    + exists t'. rewrite lookup_delete_ne by exact Hne. apply lookup_insert_eq.
    + apply lookup_delete_eq.
  - injection Hrun as <-.
    destruct (os_Rename_file_done sp dp w1 b t w2 Hkeep Hne H2) as (-> & _). split.
    + exists t. apply lookup_insert_eq.
    + rewrite lookup_insert_ne by (intros Hx; now symmetry in Hx).
      apply lookup_delete_eq.
Qed.

Lemma local_Move_moves_witness :
  let w := exec (LocalStorage.Put local_data "a/b.txt" (bytes_Reader hello) None)
             (set_faults [(SysRename "/data/a/b.txt" "/data/c/d.txt", 0)] empty_world) in
  let w' := exec (LocalStorage.Move local_data "a/b.txt" "c/d.txt") w in
  (exists t', fs w' !! "/data/c/d.txt" = Some (File hello t')) /\
  fs w' !! "/data/a/b.txt" = None.
Proof.
  intros w.
  exact (local_Move_moves local_data "a/b.txt" "c/d.txt" w hello 3
           eq_refl ltac:(discriminate) ltac:(discriminate) ltac:(discriminate)
           eq_refl eq_refl).
Defined.

(** ** Reading never writes *)

(** X12: [Get] and [List], on both backends and whatever they are given and
    whatever they return, leave the file system and the bucket store as
    they were. *)
Theorem Get_and_List_change_nothing
  (ls : LocalStorage.t) (gs : GCSStorage.t) (x : string) (w : world) :
  let same (w' : world) := fs w' = fs w /\ gcs w' = gcs w in
  same (exec (LocalStorage.Get ls x) w) /\
  same (exec (LocalStorage.List ls x) w) /\
  same (exec (GCSStorage.Get gs x) w) /\
  same (exec (GCSStorage.List gs x) w).
Proof.
  intros same. subst same. cbv beta. unfold exec.
  refine (conj _ (conj _ (conj _ _))).
  - unfold LocalStorage.Get.
    destruct (LocalStorage.checkRootDir ls); [split; reflexivity |].
    destruct (String.eqb x ""); [split; reflexivity |].
    unfold bind. pose proof (os_Open_world (LocalStorage.PathJoin ls [LocalStorage.rootDir ls; x]) w) as Hw.
    destruct (os_Open _ w) as [[f | e] w1]; cbn in Hw |- *; subst w1; split; reflexivity.
  - unfold LocalStorage.List.
    destruct (LocalStorage.checkRootDir ls); [split; reflexivity |].
    destruct (String.eqb x ""); [split; reflexivity |].
    unfold bind. pose proof (os_ReadDir_world (LocalStorage.PathJoin ls [LocalStorage.rootDir ls; x]) w) as Hw.
    destruct (os_ReadDir _ w) as [[files | e] w1]; cbn in Hw; subst w1.
    + pose proof (local_List_loop_frame ls x files []
                    (tick (SysReadDir (LocalStorage.PathJoin ls [LocalStorage.rootDir ls; x])) w))
        as Hloop.
      destruct (LocalStorage.List_loop ls x files [] _) as [objs w2]. exact Hloop.
    + destruct (IsNotExist e); split; reflexivity.
  - unfold GCSStorage.Get.
    destruct (GCSStorage.checkClientAndBucket gs); [split; reflexivity |].
    destruct (String.eqb x ""); [split; reflexivity |].
    unfold bind. pose proof (gcs_NewReader_world (GCSStorage.bucketName gs) x w) as Hw.
    destruct (gcs_NewReader _ _ w) as [[r | e] w1]; cbn in Hw |- *; subst w1;
      split; reflexivity.
  - unfold GCSStorage.List.
    destruct (GCSStorage.checkClientAndBucket gs); [split; reflexivity |].
    destruct (String.eqb x ""); [split; reflexivity |].
    rewrite (bind_eq _ _ _ _ _ (gcs_Objects_eq _ _ _)).
    apply cloud_List_loop_frame.
Qed.



(** ** Paths that are not what the method expects *)

(** X14: Local [List] of a prefix whose path is a regular file returns an
    error, not the empty sequence and not the file. *)
Theorem local_List_of_a_file_fails
  (s : LocalStorage.t) (prefix : string) (w : world) (data : list Byte.byte) (t : nat)
  (Hcfg : LocalStorage.checkRootDir s = None)
  (Hprefix : prefix <> "")
  (Hcall : fault_of (SysReadDir (Path.Join [LocalStorage.rootDir s; prefix]))
                    (faults w) = None)
  (Hfile : fs w !! Path.Join [LocalStorage.rootDir s; prefix] = Some (File data t)) :
  run (LocalStorage.List s prefix) w =
    ([], Some (Wrapf "failed to list files %q: %w"
                     [Path.Join [LocalStorage.rootDir s; prefix]] ErrNotDir)).
Proof.
  unfold run, LocalStorage.List, LocalStorage.PathJoin.
  rewrite Hcfg, (eqb_nonempty _ Hprefix).
  set (p := Path.Join [LocalStorage.rootDir s; prefix]) in *. clearbody p.
  unfold os_ReadDir. unfold bind at 1.
  rewrite (bind_eq _ _ _ _ _ (call_out_eq _ _)), Hcall.
  unfold bind, get_fs, ret, os_stat.
  change (fs (tick (SysReadDir p) w)) with (fs w). now rewrite Hfile.
Qed.

Lemma local_List_of_a_file_witness :
  let w := exec (LocalStorage.Put local_data "a/b.txt" (bytes_Reader hello) None)
             empty_world in
  run (LocalStorage.List local_data "a/b.txt") w =
    ([], Some (Wrapf "failed to list files %q: %w" ["/data/a/b.txt"] ErrNotDir)).
Proof.
  intros w.
  exact (local_List_of_a_file_fails local_data "a/b.txt" w hello 3
           eq_refl ltac:(discriminate) eq_refl eq_refl).
Defined.

(** X15: Local [Get] of a name whose path is a directory returns a stream and
    no error; it is reading the stream that fails. *)
Theorem local_Get_of_a_directory
  (s : LocalStorage.t) (name : string) (w : world) (perm : N)
  (Hcfg : LocalStorage.checkRootDir s = None)
  (Hname : name <> "")
  (Hcall : fault_of (SysOpen (Path.Join [LocalStorage.rootDir s; name])) (faults w) = None)
  (Hdir : fs w !! Path.Join [LocalStorage.rootDir s; name] = Some (Directory perm)) :
  let rc := FileReader (mkFile (Path.Join [LocalStorage.rootDir s; name])) in
  run (LocalStorage.Get s name) w = (Some rc, None) /\
  run (io_ReadAll rc) (exec (LocalStorage.Get s name) w) = ([], Some ErrIsDir).
Proof.
  intros rc. subst rc. unfold run, exec, LocalStorage.Get, LocalStorage.PathJoin.
  rewrite Hcfg, (eqb_nonempty _ Hname).
  set (p := Path.Join [LocalStorage.rootDir s; name]) in *. clearbody p.
  rewrite (bind_eq _ _ _ _ _ (os_Open_eq p w _ Hcall Hdir)).
  split; [reflexivity |]. cbn [fst snd ret io_ReadAll].
  unfold os_Read. cbn [f_path]. unfold bind at 1.
  rewrite (bind_eq _ _ _ _ _ (call_out_eq _ _)).
  unfold bind, get_fs, ret. cbn. now rewrite Hdir.
Qed.

Lemma local_Get_of_a_directory_witness :
  let w := exec (LocalStorage.Put local_data "a/b.txt" (bytes_Reader hello) None)
             empty_world in
  let rc := FileReader (mkFile "/data/a") in
  run (LocalStorage.Get local_data "a") w = (Some rc, None) /\
  run (io_ReadAll rc) (exec (LocalStorage.Get local_data "a") w) = ([], Some ErrIsDir).
Proof.
  intros w.
  exact (local_Get_of_a_directory local_data "a" w perm_0755
           eq_refl ltac:(discriminate) eq_refl eq_refl).
Defined.



(** ** Writing on the cloud backend *)

Lemma cloud_round_trip_witness :
  run (GCSStorage.Get cloud_bkt "a/b.txt")
      (exec (GCSStorage.Put cloud_bkt "a/b.txt" (bytes_Reader hello) None) empty_world)
  = (Some (ObjectReader hello), None).
Proof.
  exact (proj2 (cloud_round_trip_when_upload_finishes cloud_bkt "a/b.txt" hello None
                  empty_world 5%Z eq_refl ltac:(discriminate) eq_refl eq_refl eq_refl)).
Defined.



(** X19: Cloud [Put] from a reader that fails after yielding bytes, the store
    calls being let through: [Put] returns zero and the reader's error,
    and the bytes yielded before the failure are stored as the object all
    the same, by the deferred [Close]. *)
Theorem cloud_Put_failing_reader_stores_what_was_read
  (s : GCSStorage.t) (name : string) (r : Reader) (opts : option PutOptions.t)
  (w : world) (e : error)
  (Hcfg : GCSStorage.checkClientAndBucket s = None)
  (Hname : name <> "")
  (Hwrite : fault_of (GcsWrite (GCSStorage.bucketName s) name) (faults w) = None)
  (Hclose : fault_of (GcsClose (GCSStorage.bucketName s) name) (faults w) = None)
  (Hreader : r_err r = Some e) :
  run (GCSStorage.Put s name r opts) w =
    (0%Z, Some (Wrapf "failed to write file %q: %w"
                      [Path.Join [GCSStorage.bucketName s; name]] e)) /\
  exists o,
    gcs (exec (GCSStorage.Put s name r opts) w) !! (GCSStorage.bucketName s, name) = Some o /\
    o_data o = r_data r.
Proof.
  unfold run, exec. rewrite (cloud_Put_eq s name r opts w Hcfg Hname Hwrite Hclose).
  rewrite Hreader. cbn [fst snd]. split; [reflexivity |].
  eexists. split; [apply lookup_insert_eq | reflexivity].
Qed.

Lemma cloud_Put_failing_reader_witness :
  let r := mkReader (take 2 hello) (Some ErrInvalid) in
  run (GCSStorage.Put cloud_bkt "a/b.txt" r None) empty_world =
    (0%Z, Some (Wrapf "failed to write file %q: %w" ["bkt/a/b.txt"] ErrInvalid)) /\
  exists o,
    gcs (exec (GCSStorage.Put cloud_bkt "a/b.txt" r None) empty_world)
      !! ("bkt", "a/b.txt") = Some o /\
    o_data o = take 2 hello.
Proof.
  intros r.
  exact (cloud_Put_failing_reader_stores_what_was_read cloud_bkt "a/b.txt" r None
           empty_world ErrInvalid eq_refl ltac:(discriminate) eq_refl eq_refl eq_refl).
Defined.

(** X20: Cloud [Put] whose write to the upload fails: [Put] returns zero and
    the write error, and the store is as it was. *)
Theorem cloud_Put_failed_write_stores_nothing
  (s : GCSStorage.t) (name : string) (r : Reader) (opts : option PutOptions.t)
  (w : world) (k : nat)
  (Hcfg : GCSStorage.checkClientAndBucket s = None)
  (Hname : name <> "")
  (Hwrite : fault_of (GcsWrite (GCSStorage.bucketName s) name) (faults w) = Some k) :
  run (GCSStorage.Put s name r opts) w =
    (0%Z, Some (Wrapf "failed to write file %q: %w"
                      [Path.Join [GCSStorage.bucketName s; name]] ErrIO)) /\
  gcs (exec (GCSStorage.Put s name r opts) w) = gcs w.
Proof.
  unfold run, exec, GCSStorage.Put, GCSStorage.PathJoin.
  rewrite Hcfg, (eqb_nonempty _ Hname).
  destruct (apply_opts_keeps opts (gcs_NewWriter (GCSStorage.bucketName s) name))
    as (Hb & Hn & Hbuf & Hfailed).
  set (wr := GCSStorage.apply_opts opts _) in *. cbn in Hb, Hn, Hbuf, Hfailed. clearbody wr.
  unfold io_Copy, Write, Writer_Writer, gcs_Write, gcs_Close.
  unfold bind, call_out, get_gcs, get_clock, put_gcs, ret. cbn.
  rewrite Hb, Hn, Hwrite. cbn.
  now destruct (fault_of (GcsClose _ _) _).
Qed.

Lemma cloud_Put_failed_write_witness :
  let w := set_faults [(GcsWrite "bkt" "a/b.txt", 2)] empty_world in
  run (GCSStorage.Put cloud_bkt "a/b.txt" (bytes_Reader hello) None) w =
    (0%Z, Some (Wrapf "failed to write file %q: %w" ["bkt/a/b.txt"] ErrIO)) /\
  gcs (exec (GCSStorage.Put cloud_bkt "a/b.txt" (bytes_Reader hello) None) w) = gcs w.
Proof.
  intros w.
  exact (cloud_Put_failed_write_stores_nothing cloud_bkt "a/b.txt" (bytes_Reader hello)
           None w 2 eq_refl ltac:(discriminate) eq_refl).
Defined.

(** ** Reading and deleting on the cloud backend *)

(** X21: Cloud [Get] of a name under which no object is stored returns no
    stream and an error that wraps the store's object-not-exist error,
    with the bucket and the name joined. *)
Theorem cloud_Get_of_missing_object
  (s : GCSStorage.t) (name : string) (w : world)
  (Hcfg : GCSStorage.checkClientAndBucket s = None)
  (Hname : name <> "")
  (Hcall : fault_of (GcsNewReader (GCSStorage.bucketName s) name) (faults w) = None)
  (Hmissing : gcs w !! (GCSStorage.bucketName s, name) = None) :
  run (GCSStorage.Get s name) w =
    (None, Some (Wrapf "failed to open file %q: %w"
                       [Path.Join [GCSStorage.bucketName s; name]] ErrObjectNotExist)).
Proof.
  unfold run, GCSStorage.Get, GCSStorage.PathJoin.
  rewrite Hcfg, (eqb_nonempty _ Hname).
  unfold gcs_NewReader. unfold bind at 1.
  rewrite (bind_eq _ _ _ _ _ (call_out_eq _ _)), Hcall.
  unfold bind, get_gcs, ret.
  change (gcs (tick (GcsNewReader (GCSStorage.bucketName s) name) w)) with (gcs w).
  now rewrite Hmissing.
Qed.

Lemma cloud_Get_of_missing_object_witness :
  run (GCSStorage.Get cloud_bkt "a/b.txt") empty_world =
    (None, Some (Wrapf "failed to open file %q: %w" ["bkt/a/b.txt"] ErrObjectNotExist)).
Proof.
  exact (cloud_Get_of_missing_object cloud_bkt "a/b.txt" empty_world
           eq_refl ltac:(discriminate) eq_refl eq_refl).
Defined.

(** X22: Cloud [Delete], its call being let through: of a stored object it
    returns no error and removes that object and no other; of a name
    under which nothing is stored it returns the object-not-exist error
    and leaves the store as it was. *)
Theorem cloud_Delete_removes_one_object
  (s : GCSStorage.t) (name : string) (w : world)
  (Hcfg : GCSStorage.checkClientAndBucket s = None)
  (Hname : name <> "")
  (Hcall : fault_of (GcsDelete (GCSStorage.bucketName s) name) (faults w) = None) :
  let key := (GCSStorage.bucketName s, name) in
  (is_Some (gcs w !! key) ->
   run (GCSStorage.Delete s name) w = None /\
   gcs (exec (GCSStorage.Delete s name) w) = delete key (gcs w)) /\
  (gcs w !! key = None ->
   run (GCSStorage.Delete s name) w =
     Some (Wrapf "failed to delete file %q: %w"
                 [Path.Join [GCSStorage.bucketName s; name]] ErrObjectNotExist) /\
   gcs (exec (GCSStorage.Delete s name) w) = gcs w).
Proof.
  intros key. subst key. unfold run, exec, GCSStorage.Delete, GCSStorage.PathJoin.
  rewrite Hcfg, (eqb_nonempty _ Hname). split.
  - intros [o Ho]. now rewrite (bind_eq _ _ _ _ _ (gcs_Delete_eq _ _ w o Hcall Ho)).
  - intros Ho.
    assert (gcs_Delete (GCSStorage.bucketName s) name w =
              (Some ErrObjectNotExist,
               tick (GcsDelete (GCSStorage.bucketName s) name) w)) as Hdel.
    { unfold gcs_Delete. rewrite (bind_eq _ _ _ _ _ (call_out_eq _ _)), Hcall.
      unfold bind, get_gcs, ret.
      change (gcs (tick (GcsDelete (GCSStorage.bucketName s) name) w)) with (gcs w).
      now rewrite Ho. }
    now rewrite (bind_eq _ _ _ _ _ Hdel).
Qed.

Lemma cloud_Delete_removes_one_object_witness :
  let w := exec (GCSStorage.Put cloud_bkt "a/b.txt" (bytes_Reader hello) None)
             empty_world in
  run (GCSStorage.Delete cloud_bkt "a/b.txt") w = None /\
  gcs (exec (GCSStorage.Delete cloud_bkt "a/b.txt") w) = delete ("bkt", "a/b.txt") (gcs w).
Proof.
  intros w.
  apply (proj1 (cloud_Delete_removes_one_object cloud_bkt "a/b.txt" w
                  eq_refl ltac:(discriminate) eq_refl)).
  vm_compute. eauto.
Defined.

(** ** Copying and moving on the cloud backend *)

(** X23: A cloud [Copy] that returns no error: the source was stored, the
    destination now holds its bytes, content type and metadata, the
    source still holds its bytes, and no other object has changed. *)
Theorem cloud_Copy_copies_and_keeps_source
  (s : GCSStorage.t) (src dst : string) (w : world)
  (Hcfg : GCSStorage.checkClientAndBucket s = None)
  (Hsrc : src <> "") (Hdst : dst <> "")
  (Hcopy : run (GCSStorage.Copy s src dst) w = None) :
  let b := GCSStorage.bucketName s in
  let w' := exec (GCSStorage.Copy s src dst) w in
  exists o o' o'',
    gcs w !! (b, src) = Some o /\
    gcs w' !! (b, dst) = Some o' /\
    o_data o' = o_data o /\ o_ctype o' = o_ctype o /\ o_meta o' = o_meta o /\
    gcs w' !! (b, src) = Some o'' /\ o_data o'' = o_data o /\
    forall key, key <> (b, dst) -> gcs w' !! key = gcs w !! key.
Proof.
  intros b w'. subst b w'. unfold run, exec in *.
  destruct (GCSStorage.Copy s src dst w) as [e w'] eqn:Hrun.
  cbn [fst snd] in Hcopy |- *. subst e.
  destruct (cloud_Copy_inv s src dst w w' Hcfg Hsrc Hdst Hrun) as (_ & _ & o & Ho & ->).
  set (o' := mkObject (o_data o) (o_ctype o) (o_meta o) (S (clock w))).
  assert (forall key, key <> (GCSStorage.bucketName s, dst) ->
            <[(GCSStorage.bucketName s, dst) := o']> (gcs w) !! key = gcs w !! key)
    as Hframe.
  { intros key Hkey. apply lookup_insert_ne. congruence. }
  destruct (decide (src = dst)) as [<- | Hne].
  - exists o, o', o'.
    split_and!; [exact Ho | apply lookup_insert_eq | reflexivity | reflexivity
                | reflexivity | apply lookup_insert_eq | reflexivity | exact Hframe].
  - exists o, o', o.
    split_and!; [exact Ho | apply lookup_insert_eq | reflexivity | reflexivity
                | reflexivity | | reflexivity | exact Hframe].
    rewrite Hframe by congruence. exact Ho.
Qed.

Lemma cloud_Copy_copies_witness :
  let w := exec (GCSStorage.Put cloud_bkt "a/b.txt" (bytes_Reader hello) None)
             empty_world in
  let w' := exec (GCSStorage.Copy cloud_bkt "a/b.txt" "c/d.txt") w in
  exists o o' o'',
    gcs w !! ("bkt", "a/b.txt") = Some o /\
    gcs w' !! ("bkt", "c/d.txt") = Some o' /\
    o_data o' = o_data o /\ o_ctype o' = o_ctype o /\ o_meta o' = o_meta o /\
    gcs w' !! ("bkt", "a/b.txt") = Some o'' /\ o_data o'' = o_data o /\
    forall key, key <> ("bkt", "c/d.txt") -> gcs w' !! key = gcs w !! key.
Proof.
  intros w.
  exact (cloud_Copy_copies_and_keeps_source cloud_bkt "a/b.txt" "c/d.txt" w
           eq_refl ltac:(discriminate) ltac:(discriminate) eq_refl).
Defined.

(** X24: Cloud [Copy] from a name under which nothing is stored, its call
    being let through, returns the object-not-exist error and leaves the
    store as it was. *)
Theorem cloud_Copy_of_missing_source
  (s : GCSStorage.t) (src dst : string) (w : world)
  (Hcfg : GCSStorage.checkClientAndBucket s = None)
  (Hsrc : src <> "") (Hdst : dst <> "")
  (Hcall : fault_of (GcsCopy (GCSStorage.bucketName s) src dst) (faults w) = None)
  (Hmissing : gcs w !! (GCSStorage.bucketName s, src) = None) :
  run (GCSStorage.Copy s src dst) w =
    Some (Wrapf "failed to copy object from %q to %q: %w" [src; dst] ErrObjectNotExist) /\
  gcs (exec (GCSStorage.Copy s src dst) w) = gcs w.
Proof.
  unfold run, exec, GCSStorage.Copy.
  rewrite Hcfg, (eqb_nonempty _ Hsrc), (eqb_nonempty _ Hdst).
  assert (gcs_Copy (GCSStorage.bucketName s) src dst w =
            (Some ErrObjectNotExist, tick (GcsCopy (GCSStorage.bucketName s) src dst) w))
    as Hc.
  { unfold gcs_Copy. rewrite (bind_eq _ _ _ _ _ (call_out_eq _ _)), Hcall.
    unfold bind, get_gcs, get_clock, ret.
    change (gcs (tick (GcsCopy (GCSStorage.bucketName s) src dst) w)) with (gcs w).
    now rewrite Hmissing. }
  now rewrite (bind_eq _ _ _ _ _ Hc).
Qed.

Lemma cloud_Copy_of_missing_source_witness :
  run (GCSStorage.Copy cloud_bkt "x.txt" "c/d.txt") empty_world =
    Some (Wrapf "failed to copy object from %q to %q: %w" ["x.txt"; "c/d.txt"]
                ErrObjectNotExist) /\
  gcs (exec (GCSStorage.Copy cloud_bkt "x.txt" "c/d.txt") empty_world) = gcs empty_world.
Proof.
  exact (cloud_Copy_of_missing_source cloud_bkt "x.txt" "c/d.txt" empty_world
           eq_refl ltac:(discriminate) ltac:(discriminate) eq_refl eq_refl).
Defined.

(** X25: A cloud [Move] that returns no error, between two different names:
    the destination holds the bytes, content type and metadata the source
    held, and nothing is stored under the source name any more. *)
Theorem cloud_Move_moves
  (s : GCSStorage.t) (src dst : string) (w : world)
  (Hcfg : GCSStorage.checkClientAndBucket s = None)
  (Hsrc : src <> "") (Hdst : dst <> "")
  (Hne : src <> dst)
  (Hmove : run (GCSStorage.Move s src dst) w = None) :
  let b := GCSStorage.bucketName s in
  let w' := exec (GCSStorage.Move s src dst) w in
  gcs w' !! (b, src) = None /\
  exists o o',
    gcs w !! (b, src) = Some o /\ gcs w' !! (b, dst) = Some o' /\
    o_data o' = o_data o /\ o_ctype o' = o_ctype o /\ o_meta o' = o_meta o.
Proof.
  intros b w'. subst b w'. unfold run, exec in *.
  destruct (GCSStorage.Move s src dst w) as [e w'] eqn:Hrun.
  cbn [fst snd] in Hmove |- *. subst e.
  destruct (cloud_Move_inv s src dst w w' Hcfg Hsrc Hdst Hrun) as (o & t & Ho & ->).
  split; [apply lookup_delete_eq |].
  eexists o, _. split; [exact Ho |]. split.
  - rewrite lookup_delete_ne by congruence. apply lookup_insert_eq.
  - auto.
Qed.

Lemma cloud_Move_moves_witness :
  let w := exec (GCSStorage.Put cloud_bkt "a/b.txt" (bytes_Reader hello) None)
             empty_world in
  let w' := exec (GCSStorage.Move cloud_bkt "a/b.txt" "c/d.txt") w in
  gcs w' !! ("bkt", "a/b.txt") = None /\
  exists o o',
    gcs w !! ("bkt", "a/b.txt") = Some o /\ gcs w' !! ("bkt", "c/d.txt") = Some o' /\
    o_data o' = o_data o /\ o_ctype o' = o_ctype o /\ o_meta o' = o_meta o.
Proof.
  intros w.
  exact (cloud_Move_moves cloud_bkt "a/b.txt" "c/d.txt" w
           eq_refl ltac:(discriminate) ltac:(discriminate) ltac:(discriminate) eq_refl).
Defined.

(** X26: A cloud [Move] of an object onto its own name that returns no error
    has deleted the object: it is copied onto itself, then deleted as the
    source. *)
Theorem cloud_Move_onto_itself_deletes
  (s : GCSStorage.t) (name : string) (w : world)
  (Hcfg : GCSStorage.checkClientAndBucket s = None)
  (Hname : name <> "")
  (Hmove : run (GCSStorage.Move s name name) w = None) :
  is_Some (gcs w !! (GCSStorage.bucketName s, name)) /\
  gcs (exec (GCSStorage.Move s name name) w) !! (GCSStorage.bucketName s, name) = None.
Proof.
  unfold run, exec in *.
  destruct (GCSStorage.Move s name name w) as [e w'] eqn:Hrun.
  cbn [fst snd] in Hmove |- *. subst e.
  destruct (cloud_Move_inv s name name w w' Hcfg Hname Hname Hrun) as (o & t & Ho & ->).
  split; [eauto | apply lookup_delete_eq].
Qed.

Lemma cloud_Move_onto_itself_witness :
  let w := exec (GCSStorage.Put cloud_bkt "a/b.txt" (bytes_Reader hello) None)
             empty_world in
  is_Some (gcs w !! ("bkt", "a/b.txt")) /\
  gcs (exec (GCSStorage.Move cloud_bkt "a/b.txt" "a/b.txt") w) !! ("bkt", "a/b.txt") = None.
Proof.
  intros w.
  exact (cloud_Move_onto_itself_deletes cloud_bkt "a/b.txt" w
           eq_refl ltac:(discriminate) eq_refl).
Defined.

(** ** Deleting under a prefix on the cloud backend *)

(** X27: Cloud [DeleteAll] with no failing call returns no error and removes
    exactly the objects of its bucket whose name starts with the prefix:
    every other object, in this bucket or another, is as it was. *)
Theorem cloud_DeleteAll_removes_exactly_the_matches
  (s : GCSStorage.t) (prefix : string) (w : world)
  (Hcfg : GCSStorage.checkClientAndBucket s = None)
  (Hprefix : prefix <> "")
  (Hfaults : faults w = []) :
  run (GCSStorage.DeleteAll s prefix) w = None /\
  forall b n,
    gcs (exec (GCSStorage.DeleteAll s prefix) w) !! (b, n) =
      if String.eqb b (GCSStorage.bucketName s) && String.prefix prefix n
      then None else gcs w !! (b, n).
Proof.
  unfold run, exec, GCSStorage.DeleteAll.
  rewrite Hcfg, (eqb_nonempty _ Hprefix).
  rewrite (bind_eq _ _ _ _ _ (gcs_Objects_eq _ _ _)).
  set (it := merge_sort _ _).
  destruct (DeleteAll_loop_spec s prefix it w Hfaults) as (w' & Hloop & _ & Hgcs).
  { apply NoDup_listing. }
  { intros a Ha. apply elem_of_listing in Ha as ([[b n] o] & -> & Hm & Hb & _).
    cbn in *. subst b. eauto. }
  rewrite Hloop. cbn [fst snd]. split; [reflexivity |]. intros b n. rewrite Hgcs.
  destruct (String.eqb b (GCSStorage.bucketName s) && String.prefix prefix n) eqn:Hmatch.
  - apply andb_true_iff in Hmatch as [Hb Hp]. apply String.eqb_eq in Hb. subst b.
    case_decide as Hk; [reflexivity |].
    destruct (gcs w !! (GCSStorage.bucketName s, n)) as [o |] eqn:Ho; [| reflexivity].
    exfalso. apply Hk. apply list_elem_of_fmap.
    exists (attrs_of (GCSStorage.bucketName s, n, o)). split; [reflexivity |].
    apply elem_of_listing. now exists (GCSStorage.bucketName s, n, o).
  - case_decide as Hk; [| reflexivity]. exfalso.
    apply list_elem_of_fmap in Hk as (a & Heq & Ha).
    apply elem_of_listing in Ha as ([[b' n'] o] & -> & Hm & Hb & Hp).
    cbn in *. injection Heq as -> ->. subst b'.
    now rewrite String.eqb_refl, Hp in Hmatch.
Qed.

Lemma cloud_DeleteAll_removes_witness :
  let w := exec (GCSStorage.Put cloud_bkt "a/b.txt" (bytes_Reader hello) None)
             empty_world in
  run (GCSStorage.DeleteAll cloud_bkt "a") w = None /\
  forall b n,
    gcs (exec (GCSStorage.DeleteAll cloud_bkt "a") w) !! (b, n) =
      if String.eqb b "bkt" && String.prefix "a" n then None else gcs w !! (b, n).
Proof.
  intros w.
  exact (cloud_DeleteAll_removes_exactly_the_matches cloud_bkt "a" w
           eq_refl ltac:(discriminate) eq_refl).
Defined.

(** X28: Cloud [DeleteAll] when the delete of one object under the prefix is
    made to fail and every other call is let through: [DeleteAll] returns
    the error of that delete, and the object is still stored. *)
Theorem cloud_DeleteAll_stops_at_a_failed_delete
  (s : GCSStorage.t) (prefix n : string) (w : world) (o : gobject) (k : nat)
  (Hcfg : GCSStorage.checkClientAndBucket s = None)
  (Hprefix : prefix <> "")
  (Hnext : fault_of (GcsNext (GCSStorage.bucketName s) prefix) (faults w) = None)
  (Hfail : fault_of (GcsDelete (GCSStorage.bucketName s) n) (faults w) = Some k)
  (Hothers : forall n', n' <> n ->
     fault_of (GcsDelete (GCSStorage.bucketName s) n') (faults w) = None)
  (Hstored : gcs w !! (GCSStorage.bucketName s, n) = Some o)
  (Hmatch : String.prefix prefix n = true) :
  run (GCSStorage.DeleteAll s prefix) w =
    Some (Wrapf "failed to delete %s: %w" [n] ErrIO) /\
  gcs (exec (GCSStorage.DeleteAll s prefix) w) !! (GCSStorage.bucketName s, n) = Some o.
Proof.
  unfold run, exec, GCSStorage.DeleteAll.
  rewrite Hcfg, (eqb_nonempty _ Hprefix).
  rewrite (bind_eq _ _ _ _ _ (gcs_Objects_eq _ _ _)).
  set (it := merge_sort _ _).
  destruct (DeleteAll_loop_stops s prefix n k it w Hnext Hfail Hothers)
    as (w' & Hloop & Hkept).
  { apply NoDup_listing. }
  { intros a Ha. apply elem_of_listing in Ha as ([[b n'] o'] & -> & Hm & Hb & _).
    cbn in *. subst b. eauto. }
  { apply list_elem_of_fmap. exists (attrs_of (GCSStorage.bucketName s, n, o)).
    split; [reflexivity |]. apply elem_of_listing.
    now exists (GCSStorage.bucketName s, n, o). }
  rewrite Hloop. cbn [fst snd]. now rewrite Hkept.
Qed.

Lemma cloud_DeleteAll_stops_witness :
  let w := set_faults [(GcsDelete "bkt" "a/b.txt", 0)]
             (exec (GCSStorage.Put cloud_bkt "a/b.txt" (bytes_Reader hello) None)
                   empty_world) in
  run (GCSStorage.DeleteAll cloud_bkt "a") w =
    Some (Wrapf "failed to delete %s: %w" ["a/b.txt"] ErrIO) /\
  gcs (exec (GCSStorage.DeleteAll cloud_bkt "a") w) !! ("bkt", "a/b.txt")
    = Some (mkObject hello "" ∅ 2).
Proof.
  intros w.
  apply (cloud_DeleteAll_stops_at_a_failed_delete cloud_bkt "a" "a/b.txt" w
           (mkObject hello "" ∅ 2) 0); try reflexivity; try discriminate.
  intros n' Hn'. cbn. case_decide as Heq; [| reflexivity].
  injection Heq as ->. contradiction.
Defined.

(** ** Listing on the cloud backend, unconfigured backends *)


Lemma unconfigured_backend_witness :
  let ls := LocalStorage.NewLocalStorage "" "local" in
  let gs := GCSStorage.NewGCSStorage None "bkt" "cloud" in
  (exec (LocalStorage.Put ls "a/b.txt" (bytes_Reader hello) None) empty_world = empty_world /\
   exists e, snd (run (LocalStorage.Put ls "a/b.txt" (bytes_Reader hello) None) empty_world)
             = Some e /\ Unconfigured e) /\
  (exec (GCSStorage.Move gs "a/b.txt" "c/d.txt") empty_world = empty_world /\
   exists e, id (run (GCSStorage.Move gs "a/b.txt" "c/d.txt") empty_world) = Some e /\
             Unconfigured e).
Proof.
  intros ls gs.
  pose proof (unconfigured_backend_refuses_first ls gs empty_world (bytes_Reader hello)
                None "a/b.txt" "c/d.txt" ltac:(discriminate) ltac:(discriminate))
    as [Hl Hg].
  split; [apply Hl | apply Hg].
Defined.
